(** * secure-signer-cli-go: a policy-gated transaction signer

    Shallow embedding of [secure_signer.go] and of the library functions it
    calls, followed by the properties of the policy evaluator and of the
    signing pipeline.

    Conventions.
    - A Go [string] is a sequence of bytes: [string] of [ascii].
    - A Go [byte] is a [Z] in [0, 256); a [rune] is a [Z].
    - A [*big.Int] is an [option Z] where the pointer may be nil, a [Z]
      where it cannot.
    - A Go [error] is a value of [error]; where it may be nil, an
      [option error]. *)

From Stdlib Require Import ZArith List Bool Ascii String Lia.
Import ListNotations.
Local Open Scope string_scope.
Local Open Scope list_scope.
Local Open Scope Z_scope.

(** ** Bytes and strings *)

Definition byte_of (c : ascii) : Z := Z.of_N (N_of_ascii c).
Definition char_of (b : Z) : ascii := ascii_of_N (Z.to_N b).

(** [[]byte(s)] and [string(b)]. *)
Fixpoint bytes_of_string (s : string) : list Z :=
  match s with
  | EmptyString => []
  | String c s' => byte_of c :: bytes_of_string s'
  end.

Fixpoint string_of_bytes (l : list Z) : string :=
  match l with
  | [] => EmptyString
  | b :: l' => String (char_of b) (string_of_bytes l')
  end.

(** [s[n:]] for [n <= len(s)]. *)
Fixpoint drop (n : nat) (s : string) : string :=
  match n, s with
  | O, _ => s
  | S n', String _ s' => drop n' s'
  | S _, EmptyString => EmptyString
  end.

(** ASCII lower-casing of one byte and of a string; bytes outside ['A'-'Z']
    are left alone. Used to state case-insensitivity. *)
Definition lower_byte (b : Z) : Z :=
  if (65 <=? b) && (b <=? 90) then b + 32 else b.

Definition lower_char (c : ascii) : ascii := char_of (lower_byte (byte_of c)).

Fixpoint lower (s : string) : string :=
  match s with
  | EmptyString => EmptyString
  | String c s' => String (lower_char c) (lower s')
  end.

(** ** encoding/hex *)

Module hex.

Definition hextable : string := "0123456789abcdef".

Definition digit (n : Z) : ascii :=
  match get (Z.to_nat n) hextable with
  | Some c => c
  | None => "0"%char
  end.

(** [hex.Encode]: two lowercase digits per byte, high nibble first. *)
Fixpoint Encode (src : list Z) : string :=
  match src with
  | [] => EmptyString
  | v :: rest =>
      String (digit (Z.shiftr v 4)) (String (digit (Z.land v 15)) (Encode rest))
  end.

Definition EncodeToString (src : list Z) : string := Encode src.

(** [reverseHexTable]: the value of a hex digit, [None] for the table's
    0xff entries. *)
Definition fromHexChar (c : ascii) : option Z :=
  let b := byte_of c in
  if (48 <=? b) && (b <=? 57) then Some (b - 48)
  else if (97 <=? b) && (b <=? 102) then Some (b - 97 + 10)
  else if (65 <=? b) && (b <=? 70) then Some (b - 65 + 10)
  else None.

Inductive DecodeError : Type :=
| InvalidByteError (c : ascii)
| ErrLength.

(** [hex.Decode] / [hex.DecodeString]: the bytes decoded before the first
    error are returned together with the error. *)
Fixpoint DecodeString (s : string) : list Z * option DecodeError :=
  match s with
  | EmptyString => ([], None)
  | String p EmptyString =>
      match fromHexChar p with
      | None => ([], Some (InvalidByteError p))
      | Some _ => ([], Some ErrLength)
      end
  | String p (String q rest) =>
      match fromHexChar p, fromHexChar q with
      | None, _ => ([], Some (InvalidByteError p))
      | Some _, None => ([], Some (InvalidByteError q))
      | Some a, Some b =>
          let (bytes, err) := DecodeString rest in
          (Z.lor (Z.shiftl a 4) b :: bytes, err)
      end
  end.

End hex.

(** ** Keccak-256 (golang.org/x/crypto/sha3, [NewLegacyKeccak256])

    The hash behind the EIP-55 checksum of [Address.Hex]. The state is the
    list of the 25 lanes, lane [(x, y)] at index [x + 5 * y]. *)

Module keccak.

Definition mask64 : Z := Z.ones 64.

Definition rotl (x n : Z) : Z :=
  Z.land (Z.lor (Z.shiftl x n) (Z.shiftr x (64 - n))) mask64.

Definition lane (A : list Z) (x y : Z) : Z :=
  nth (Z.to_nat (x mod 5 + 5 * (y mod 5))) A 0.

Definition coords : list (Z * Z) :=
  flat_map (fun y => map (fun x => (x, y)) [0; 1; 2; 3; 4]) [0; 1; 2; 3; 4].

Definition build (f : Z -> Z -> Z) : list Z :=
  map (fun xy => f (fst xy) (snd xy)) coords.

Definition rotc : list Z :=
  [ 0;  1; 62; 28; 27;
   36; 44;  6; 55; 20;
    3; 10; 43; 25; 39;
   41; 45; 15; 21;  8;
   18;  2; 61; 56; 14].

Definition RC : list Z :=
  [0x0000000000000001; 0x0000000000008082; 0x800000000000808A;
   0x8000000080008000; 0x000000000000808B; 0x0000000080000001;
   0x8000000080008081; 0x8000000000008009; 0x000000000000008A;
   0x0000000000000088; 0x0000000080008009; 0x000000008000000A;
   0x000000008000808B; 0x800000000000008B; 0x8000000000008089;
   0x8000000000008003; 0x8000000000008002; 0x8000000000000080;
   0x000000000000800A; 0x800000008000000A; 0x8000000080008081;
   0x8000000000008080; 0x0000000080000001; 0x8000000080008008].

Definition theta (A : list Z) : list Z :=
  let C := map (fun x => fold_left Z.lxor
                           (map (lane A x) [0; 1; 2; 3; 4]) 0) [0; 1; 2; 3; 4] in
  let c x := nth (Z.to_nat (x mod 5)) C 0 in
  build (fun x y => Z.lxor (lane A x y) (Z.lxor (c (x - 1)) (rotl (c (x + 1)) 1))).

Definition rho_pi (A : list Z) : list Z :=
  build (fun x y =>
           let x' := (x + 3 * y) mod 5 in
           rotl (lane A x' x) (lane rotc x' x)).

Definition chi (B : list Z) : list Z :=
  build (fun x y =>
           Z.lxor (lane B x y)
                  (Z.land (Z.lxor (lane B (x + 1) y) mask64) (lane B (x + 2) y))).

Definition iota (rc : Z) (A : list Z) : list Z :=
  match A with
  | [] => []
  | a :: rest => Z.lxor a rc :: rest
  end.

Definition round (A : list Z) (rc : Z) : list Z :=
  iota rc (chi (rho_pi (theta A))).

Definition keccakF1600 (A : list Z) : list Z := fold_left round RC A.

(** Little-endian lanes. *)
Fixpoint load64 (n : nat) (bs : list Z) : Z :=
  match n, bs with
  | S n', b :: bs' => Z.lor b (Z.shiftl (load64 n' bs') 8)
  | _, _ => 0
  end.

Fixpoint store64 (n : nat) (v : Z) : list Z :=
  match n with
  | O => []
  | S n' => Z.land v 255 :: store64 n' (Z.shiftr v 8)
  end.

Fixpoint lanes_of (n : nat) (bs : list Z) : list Z :=
  match n with
  | O => []
  | S n' => load64 8 bs :: lanes_of n' (skipn 8 bs)
  end.

Fixpoint xor_into (A lanes : list Z) : list Z :=
  match A, lanes with
  | a :: A', l :: lanes' => Z.lxor a l :: xor_into A' lanes'
  | _, _ => A
  end.

Definition rate : nat := 136.

(** Padding of the legacy Keccak: 0x01, zeros, and 0x80 or-ed into the last
    byte of the block. *)
Definition pad (msg : list Z) : list Z :=
  let fill := (rate - 1 - (List.length msg mod rate))%nat in
  match fill with
  | O => msg ++ [0x81]
  | S k => msg ++ [0x01] ++ repeat 0 k ++ [0x80]
  end.

Fixpoint absorb (blocks : nat) (A : list Z) (data : list Z) : list Z :=
  match blocks with
  | O => A
  | S n =>
      absorb n (keccakF1600 (xor_into A (lanes_of 17 (firstn rate data))))
             (skipn rate data)
  end.

Definition Sum256 (msg : list Z) : list Z :=
  let data := pad msg in
  let A := absorb (List.length data / rate) (repeat 0 25) data in
  flat_map (store64 8) (firstn 4 A).

End keccak.

(** ** go-ethereum/common: addresses *)

Module common.

Definition AddressLength : nat := 20.

(** [type Address [AddressLength]byte], as the list of its bytes. *)
Definition Address : Type := list Z.

Definition has0xPrefix (str : string) : bool :=
  match str with
  | String c0 (String c1 _) =>
      (byte_of c0 =? 48) && ((byte_of c1 =? 120) || (byte_of c1 =? 88))
  | _ => false
  end.

(** [h, _ := hex.DecodeString(str); return h]: the error is dropped. *)
Definition Hex2Bytes (str : string) : list Z := fst (hex.DecodeString str).

Definition FromHex (s : string) : list Z :=
  let s := if has0xPrefix s then drop 2 s else s in
  let s := if Nat.odd (String.length s) then String "0" s else s in
  Hex2Bytes s.

(** [SetBytes] on a zero address: [b] is cropped from the left when it is
    longer than the address and copied to the right end otherwise. *)
Definition BytesToAddress (b : list Z) : Address :=
  let b := if (AddressLength <? List.length b)%nat
           then skipn (List.length b - AddressLength) b else b in
  repeat 0 (AddressLength - List.length b) ++ b.

Definition HexToAddress (s : string) : Address := BytesToAddress (FromHex s).

(** [Address.hex]: "0x" and the lowercase digits. *)
Definition hex (a : Address) : string := String "0" (String "x" (hex.Encode a)).

(** The loop of [checksumHex] over [buf[2:]]: [i] is the index into [buf],
    [hash] what is left of the hash from byte [(i-2)/2] on. A letter whose
    hash nibble exceeds 7 is upper-cased. *)
Fixpoint checksum (i : Z) (hash : list Z) (buf : string) : string :=
  match buf with
  | EmptyString => EmptyString
  | String c rest =>
      let hashByte := match hash with h :: _ => h | [] => 0 end in
      let hashByte := if i mod 2 =? 0 then Z.shiftr hashByte 4
                      else Z.land hashByte 15 in
      let c' := if (57 <? byte_of c) && (7 <? hashByte)
                then char_of (byte_of c - 32) else c in
      let hash' := if i mod 2 =? 0 then hash else tl hash in
      String c' (checksum (i + 1) hash' rest)
  end.

Definition checksumHex (a : Address) : string :=
  let digits := hex.Encode a in
  let hash := keccak.Sum256 (bytes_of_string digits) in
  String "0" (String "x" (checksum 2 hash digits)).

(** [Address.Hex]: the EIP-55 mixed-case form. *)
Definition Hex (a : Address) : string := checksumHex a.

End common.

(** ** unicode/utf8, unicode, strings *)

Module utf8.

Definition RuneSelf : Z := 0x80.
Definition RuneError : Z := 0xFFFD.

(** The table [first] with [acceptRanges]: the size of the sequence a
    leading byte starts and the range accepted for its second byte;
    [None] for an invalid leading byte. *)
Definition first (b0 : Z) : option (nat * Z * Z) :=
  if b0 <? 0xC2 then None
  else if b0 <=? 0xDF then Some (2%nat, 0x80, 0xBF)
  else if b0 =? 0xE0 then Some (3%nat, 0xA0, 0xBF)
  else if b0 =? 0xED then Some (3%nat, 0x80, 0x9F)
  else if b0 <=? 0xEF then Some (3%nat, 0x80, 0xBF)
  else if b0 =? 0xF0 then Some (4%nat, 0x90, 0xBF)
  else if b0 <=? 0xF3 then Some (4%nat, 0x80, 0xBF)
  else if b0 =? 0xF4 then Some (4%nat, 0x80, 0x8F)
  else None.

Definition cont (b : Z) : bool := (0x80 <=? b) && (b <=? 0xBF).

(** [utf8.DecodeRuneInString]: the rune and its width; ill-formed input
    gives [(RuneError, 1)]. *)
Definition DecodeRuneInString (s : string) : Z * nat :=
  match s with
  | EmptyString => (RuneError, 0%nat)
  | String c0 rest =>
      let s0 := byte_of c0 in
      if s0 <? RuneSelf then (s0, 1%nat)
      else
        match first s0, rest with
        | Some (sz, lo, hi), String c1 r1 =>
            let s1 := byte_of c1 in
            if (s1 <? lo) || (hi <? s1) then (RuneError, 1%nat)
            else if (sz <=? 2)%nat
            then (Z.lor (Z.shiftl (Z.land s0 0x1F) 6) (Z.land s1 0x3F), 2%nat)
            else
              match r1 with
              | String c2 r2 =>
                  let s2 := byte_of c2 in
                  if negb (cont s2) then (RuneError, 1%nat)
                  else if (sz <=? 3)%nat
                  then (Z.lor (Z.shiftl (Z.land s0 0x0F) 12)
                          (Z.lor (Z.shiftl (Z.land s1 0x3F) 6) (Z.land s2 0x3F)),
                        3%nat)
                  else
                    match r2 with
                    | String c3 _ =>
                        let s3 := byte_of c3 in
                        if negb (cont s3) then (RuneError, 1%nat)
                        else (Z.lor (Z.shiftl (Z.land s0 0x07) 18)
                                (Z.lor (Z.shiftl (Z.land s1 0x3F) 12)
                                   (Z.lor (Z.shiftl (Z.land s2 0x3F) 6)
                                      (Z.land s3 0x3F))),
                              4%nat)
                    | EmptyString => (RuneError, 1%nat)
                    end
              | EmptyString => (RuneError, 1%nat)
              end
        | _, _ => (RuneError, 1%nat)
        end
  end.

(** [utf8.AppendRune]. *)
Definition EncodeRune (r : Z) : list Z :=
  let r := if (r <? 0) || (0x10FFFF <? r) || ((0xD800 <=? r) && (r <=? 0xDFFF))
           then RuneError else r in
  if r <? 0x80 then [r]
  else if r <? 0x800 then
    [Z.lor 0xC0 (Z.shiftr r 6); Z.lor 0x80 (Z.land r 0x3F)]
  else if r <? 0x10000 then
    [Z.lor 0xE0 (Z.shiftr r 12); Z.lor 0x80 (Z.land (Z.shiftr r 6) 0x3F);
     Z.lor 0x80 (Z.land r 0x3F)]
  else
    [Z.lor 0xF0 (Z.shiftr r 18); Z.lor 0x80 (Z.land (Z.shiftr r 12) 0x3F);
     Z.lor 0x80 (Z.land (Z.shiftr r 6) 0x3F); Z.lor 0x80 (Z.land r 0x3F)].

End utf8.

Module unicode.

(** [unicode.SimpleFold]: the next rune of the case orbit. The table
    [asciiFold] is complete, with its two orbits that leave ASCII
    (k, K, KELVIN SIGN and s, S, LATIN SMALL LETTER LONG S). The case pairs
    of the other letters beyond ASCII are not tabulated: such a rune is its
    own orbit here, which is exact whenever one of the two runes compared
    is ASCII. *)
Definition SimpleFold (r : Z) : Z :=
  if r =? 107 then 0x212A
  else if r =? 115 then 0x017F
  else if (65 <=? r) && (r <=? 90) then r + 32
  else if (97 <=? r) && (r <=? 122) then r - 32
  else if r =? 0x212A then 75
  else if r =? 0x017F then 83
  else r.

End unicode.

Module strings.

(** [strings.TrimPrefix]. *)
Definition TrimPrefix (s pre : string) : string :=
  if prefix pre s then drop (String.length pre) s else s.

(** The loop [for r != sr && r < tr { r = SimpleFold(r) }]; an orbit of
    [unicode.SimpleFold] has at most three runes. *)
Fixpoint foldTo (fuel : nat) (sr tr r : Z) : Z :=
  match fuel with
  | O => r
  | S fuel' =>
      if negb (r =? sr) && (r <? tr)
      then foldTo fuel' sr tr (unicode.SimpleFold r) else r
  end.

(** One iteration of the [hasUnicode] loop, after both runes are decoded:
    [true] for [continue], [false] for [return false]. *)
Definition runesFold (sr tr : Z) : bool :=
  if tr =? sr then true
  else
    let lo := Z.min sr tr in
    let hi := Z.max sr tr in
    if hi <? utf8.RuneSelf
    then (65 <=? lo) && (lo <=? 90) && (hi =? lo + 32)
    else foldTo 4 lo hi (unicode.SimpleFold lo) =? hi.

(** The [hasUnicode] part of [EqualFold]: rune by rune. Each iteration
    consumes at least one byte of [s], so [fuel = len(s)] is enough. *)
Fixpoint equalFoldUnicode (fuel : nat) (s t : string) : bool :=
  match s with
  | EmptyString =>
      match t with EmptyString => true | _ => false end
  | String _ _ =>
      match fuel with
      | O => false
      | S fuel' =>
          let (sr, size) := utf8.DecodeRuneInString s in
          match t with
          | EmptyString => false
          | String c t0 =>
              let (tr, t') :=
                if byte_of c <? utf8.RuneSelf then (byte_of c, t0)
                else let (r, sz) := utf8.DecodeRuneInString t in (r, drop sz t) in
              if runesFold sr tr
              then equalFoldUnicode fuel' (drop size s) t'
              else false
          end
      end
  end.

(** [strings.EqualFold]: the ASCII fast path, leaving for the rune loop at
    the first byte of either string that is not ASCII. *)
Fixpoint EqualFold (s t : string) : bool :=
  match s, t with
  | String cs s', String ct t' =>
      let sr := byte_of cs in
      let tr := byte_of ct in
      if utf8.RuneSelf <=? Z.lor sr tr
      then equalFoldUnicode (String.length s) s t
      else if tr =? sr then EqualFold s' t'
      else
        let lo := Z.min sr tr in
        let hi := Z.max sr tr in
        if (65 <=? lo) && (lo <=? 90) && (hi =? lo + 32)
        then EqualFold s' t' else false
  | EmptyString, EmptyString => true
  | _, _ => false
  end.

End strings.

(** ** math/big *)

Module big.

Definition digitVal (c : ascii) : option Z :=
  let b := byte_of c in
  if (48 <=? b) && (b <=? 57) then Some (b - 48) else None.

(** The digit loop of [nat.scan] in base 10: it stops at the first byte
    that is not a decimal digit, and [setFromScanner] fails unless the
    whole string was consumed. [count] is the number of digits read. *)
Fixpoint scanDigits (acc : Z) (count : nat) (s : string) : option (Z * nat) :=
  match s with
  | EmptyString => Some (acc, count)
  | String c rest =>
      match digitVal c with
      | Some d => scanDigits (acc * 10 + d) (S count) rest
      | None => None
      end
  end.

(** [new(big.Int).SetString(s, 10)]: an optional sign, then at least one
    decimal digit and nothing else. [None] stands for [ok == false]. *)
Definition SetString (s : string) : option Z :=
  let (neg, rest) :=
    match s with
    | String "-" r => (true, r)
    | String "+" r => (false, r)
    | _ => (false, s)
    end in
  match scanDigits 0 0 rest with
  | Some (abs, S _) => Some (if neg then - abs else abs)
  | _ => None
  end.

(** [x.Cmp(y)]: -1, 0 or +1. *)
Definition Cmp (x y : Z) : Z :=
  match x ?= y with
  | Lt => -1
  | Eq => 0
  | Gt => 1
  end.

End big.

(** ** Errors

    The error values the program meets. [errors.New] and the collaborators
    give an [errorString]; the others are the errors of encoding/json and
    math/big. *)

Inductive error : Type :=
| errorString (msg : string)
| SyntaxError
| UnmarshalTypeError (value : string) (type : string)
| BigIntError (text : string).

Module errors.
Definition New (msg : string) : error := errorString msg.
End errors.

(** ** encoding/json: syntax *)

Module json.

(** A JSON text. A number keeps its literal, a string is unquoted. *)
#[local] Set Warnings "-register-all".
Inductive value : Type :=
| Null
| Bool (b : bool)
| Number (lit : string)
| Str (s : string)
| Array (elems : list value)
| Object (members : list (string * value)).

Definition isSpace (c : ascii) : bool :=
  let b := byte_of c in (b =? 32) || (b =? 9) || (b =? 13) || (b =? 10).

Fixpoint skipSpace (s : string) : string :=
  match s with
  | String c rest => if isSpace c then skipSpace rest else s
  | EmptyString => s
  end.

Definition isDigit (c : ascii) : bool :=
  let b := byte_of c in (48 <=? b) && (b <=? 57).

(** The longest run of digits at the head of [s]. *)
Fixpoint digits (s : string) : string * string :=
  match s with
  | String c rest =>
      if isDigit c then let (d, r) := digits rest in (String c d, r)
      else (EmptyString, s)
  | EmptyString => (EmptyString, s)
  end.

Definition digits1 (s : string) : option (string * string) :=
  match digits s with
  | (EmptyString, _) => None
  | (d, r) => Some (d, r)
  end.

(** A number literal: an optional minus; 0, or a digit from 1 to 9 and any
    digits; then optionally a point and digits; then optionally e or E, a
    sign and digits. *)
Definition scanNumber (s : string) : option (string * string) :=
  let (sign, s1) :=
    match s with
    | String "-" r => ("-", r)
    | _ => (EmptyString, s)
    end in
  let int :=
    match s1 with
    | String "0" r => Some ("0", r)
    | _ => digits1 s1
    end in
  match int with
  | None => None
  | Some (i, s2) =>
      let frac :=
        match s2 with
        | String "." r =>
            match digits1 r with
            | Some (d, r') => Some (String "." d, r')
            | None => None
            end
        | _ => Some (EmptyString, s2)
        end in
      match frac with
      | None => None
      | Some (f, s3) =>
          let exp :=
            match s3 with
            | String c r =>
                if (byte_of c =? 101) || (byte_of c =? 69) then
                  let (sg, r1) :=
                    match r with
                    | String "+" r' => ("+", r')
                    | String "-" r' => ("-", r')
                    | _ => (EmptyString, r)
                    end in
                  match digits1 r1 with
                  | Some (d, r2) => Some (String c (sg ++ d), r2)
                  | None => None
                  end
                else Some (EmptyString, s3)
            | EmptyString => Some (EmptyString, s3)
            end in
          match exp with
          | None => None
          | Some (e, s4) => Some ((sign ++ i ++ f ++ e)%string, s4)
          end
      end
  end.

(** [getu4]: the four hex digits of a [\u] escape. *)
Definition hex4 (s : string) : option (Z * string) :=
  match s with
  | String a (String b (String c (String d rest))) =>
      match hex.fromHexChar a, hex.fromHexChar b,
            hex.fromHexChar c, hex.fromHexChar d with
      | Some x3, Some x2, Some x1, Some x0 =>
          Some (x3 * 4096 + x2 * 256 + x1 * 16 + x0, rest)
      | _, _, _, _ => None
      end
  | _ => None
  end.

(** [utf16.DecodeRune]. *)
Definition decodeSurrogates (r1 r2 : Z) : Z :=
  if (0xD800 <=? r1) && (r1 <? 0xDC00) && (0xDC00 <=? r2) && (r2 <? 0xE000)
  then Z.lor (Z.shiftl (r1 - 0xD800) 10) (r2 - 0xDC00) + 0x10000
  else utf8.RuneError.

(** A string literal after its opening quote, unquoted as [unquoteBytes]
    does: escapes are replaced, a surrogate pair is combined, and what is
    not well-formed UTF-8 becomes U+FFFD. *)
Fixpoint unquote (fuel : nat) (s : string) : option (list Z * string) :=
  match fuel with
  | O => None
  | S fuel' =>
      let more (bs : list Z) (rest : string) :=
        match unquote fuel' rest with
        | Some (out, r) => Some (bs ++ out, r)
        | None => None
        end in
      match s with
      | EmptyString => None
      | String c rest =>
          let b := byte_of c in
          if b =? 34 then Some ([], rest)
          else if b <? 32 then None
          else if b =? 92 then
            match rest with
            | String e rest' =>
                let eb := byte_of e in
                if (eb =? 34) || (eb =? 92) || (eb =? 47) then more [eb] rest'
                else if eb =? 98 then more [8] rest'
                else if eb =? 102 then more [12] rest'
                else if eb =? 110 then more [10] rest'
                else if eb =? 114 then more [13] rest'
                else if eb =? 116 then more [9] rest'
                else if eb =? 117 then
                  match hex4 rest' with
                  | None => None
                  | Some (rr, r1) =>
                      if (0xD800 <=? rr) && (rr <? 0xE000) then
                        let pair :=
                          match r1 with
                          | String "\" (String "u" r2) =>
                              match hex4 r2 with
                              | Some (rr1, r3) =>
                                  let dec := decodeSurrogates rr rr1 in
                                  if dec =? utf8.RuneError then None
                                  else Some (dec, r3)
                              | None => None
                              end
                          | _ => None
                          end in
                        match pair with
                        | Some (dec, r3) => more (utf8.EncodeRune dec) r3
                        | None => more (utf8.EncodeRune utf8.RuneError) r1
                        end
                      else more (utf8.EncodeRune rr) r1
                  end
                else None
            | EmptyString => None
            end
          else if b <? utf8.RuneSelf then more [b] rest
          else
            let (rr, size) := utf8.DecodeRuneInString s in
            more (utf8.EncodeRune rr) (drop size s)
      end
  end.

Definition scanString (s : string) : option (string * string) :=
  match unquote (S (String.length s)) s with
  | Some (bs, rest) => Some (string_of_bytes bs, rest)
  | None => None
  end.

Definition literal (word : string) (v : value) (s : string)
  : option (value * string) :=
  if prefix word s then Some (v, drop (String.length word) s) else None.

(** The grammar of the scanner. [parseValue] reads one value, [parseElems]
    the elements of an array after the first, [parseMembers] the members of
    an object from a key on; every call hands on less fuel and has consumed
    at least one byte more. *)
Fixpoint parseValue (fuel : nat) (s : string) : option (value * string) :=
  match fuel with
  | O => None
  | S fuel' =>
      match skipSpace s with
      | EmptyString => None
      | String c rest as s0 =>
          let b := byte_of c in
          if b =? 123 then
            match skipSpace rest with
            | String "}" r => Some (Object [], r)
            | r =>
                match parseMembers fuel' r with
                | Some (ms, r') => Some (Object ms, r')
                | None => None
                end
            end
          else if b =? 91 then
            match skipSpace rest with
            | String "]" r => Some (Array [], r)
            | r =>
                match parseValue fuel' r with
                | Some (v, r1) =>
                    match parseElems fuel' r1 with
                    | Some (vs, r2) => Some (Array (v :: vs), r2)
                    | None => None
                    end
                | None => None
                end
            end
          else if b =? 34 then
            match scanString rest with
            | Some (str, r) => Some (Str str, r)
            | None => None
            end
          else if b =? 116 then literal "true" (Bool true) s0
          else if b =? 102 then literal "false" (Bool false) s0
          else if b =? 110 then literal "null" Null s0
          else
            match scanNumber s0 with
            | Some (lit, r) => Some (Number lit, r)
            | None => None
            end
      end
  end
with parseElems (fuel : nat) (s : string) : option (list value * string) :=
  match fuel with
  | O => None
  | S fuel' =>
      match skipSpace s with
      | String "]" r => Some ([], r)
      | String "," r =>
          match parseValue fuel' r with
          | Some (v, r1) =>
              match parseElems fuel' r1 with
              | Some (vs, r2) => Some (v :: vs, r2)
              | None => None
              end
          | None => None
          end
      | _ => None
      end
  end
with parseMembers (fuel : nat) (s : string)
  : option (list (string * value) * string) :=
  match fuel with
  | O => None
  | S fuel' =>
      match skipSpace s with
      | String c r =>
          match (if byte_of c =? 34 then scanString r else None) with
          | Some (key, r1) =>
              match skipSpace r1 with
              | String ":" r2 =>
                  match parseValue fuel' r2 with
                  | Some (v, r3) =>
                      match skipSpace r3 with
                      | String "}" r4 => Some ([(key, v)], r4)
                      | String "," r4 =>
                          match parseMembers fuel' r4 with
                          | Some (ms, r5) => Some ((key, v) :: ms, r5)
                          | None => None
                          end
                      | _ => None
                      end
                  | None => None
                  end
              | _ => None
              end
          | None => None
          end
      | EmptyString => None
      end
  end.

(** [checkValid] and the value it accepts: one value, white space around
    it, nothing after. *)
Definition parse (data : string) : option value :=
  match parseValue (2 * String.length data + 2) data with
  | Some (v, rest) =>
      match skipSpace rest with
      | EmptyString => Some v
      | _ => None
      end
  | None => None
  end.

End json.

(** In the examples a JSON text is written with ['] for the double quote. *)
Fixpoint q (s : string) : string :=
  match s with
  | EmptyString => EmptyString
  | String c rest => String (if byte_of c =? 39 then char_of 34 else c) (q rest)
  end.

(** ** go-ethereum/core/types: the transaction record *)

Module types.

(** [types.LegacyTx], the inner data of the [Transaction] that
    [NewTransaction] makes. [To] is a pointer: nil for contract creation. *)
Record Transaction : Type := {
  Nonce : Z;
  GasPrice : Z;
  Gas : Z;
  To : option common.Address;
  Value : Z;
  Data : list Z
}.

Definition NewTransaction (nonce : Z) (to : common.Address) (amount : Z)
    (gasLimit : Z) (gasPrice : Z) (data : list Z) : Transaction :=
  {| Nonce := nonce; GasPrice := gasPrice; Gas := gasLimit;
     To := Some to; Value := amount; Data := data |}.

(** The signer is determined by the chain identifier it is bound to. *)
Record Signer : Type := { chainId : Z }.

Definition LatestSignerForChainID (chainID : Z) : Signer :=
  {| chainId := chainID |}.

End types.

(** ** package main: the policy *)

Record Policy : Type := {
  MaxAmountWei : option Z;   (* *big.Int, json:"max_amount_wei" *)
  Whitelist : list string    (* []string, json:"whitelist" *)
}.

(** *** [json.Unmarshal(data, &policy)] on a zero [Policy]

    The decoder of encoding/json at the type [Policy]. An error of the
    [UnmarshalJSON] of [*big.Int] ends the decoding; a value of the wrong
    kind is skipped and the first such error is kept for the end. *)

Record decodeState : Type := {
  target : Policy;
  savedError : option error
}.

Definition saveError (d : decodeState) (e : error) : decodeState :=
  {| target := target d;
     savedError := match savedError d with Some e0 => Some e0 | None => Some e end |}.

Definition kindName (v : json.value) : string :=
  match v with
  | json.Null => "null"
  | json.Bool _ => "bool"
  | json.Number _ => "number"
  | json.Str _ => "string"
  | json.Array _ => "array"
  | json.Object _ => "object"
  end.

(** The [UnmarshalJSON] of [big.Int] on the raw text of [v]. The text of a JSON
    number has no leading zero, prefix or underscore, so that base 0 reads
    it as base 10 does; the text of any other value does not start a
    number. *)
Definition UnmarshalJSON_Int (v : json.value) : error + Z :=
  match v with
  | json.Number lit =>
      match big.SetString lit with
      | Some z => inr z
      | None => inl (BigIntError lit)
      end
  | _ => inl (BigIntError (kindName v))
  end.

(** The elements of a JSON array into a [[]string]: a string is stored, a
    null leaves the zero value, anything else is a type error. *)
Fixpoint storeStrings (vs : list json.value) (d : decodeState)
  : list string * decodeState :=
  match vs with
  | [] => ([], d)
  | v :: rest =>
      let (s, d1) :=
        match v with
        | json.Str s => (s, d)
        | json.Null => (EmptyString, d)
        | _ => (EmptyString, saveError d (UnmarshalTypeError (kindName v) "string"))
        end in
      let (l, d2) := storeStrings rest d1 in
      (s :: l, d2)
  end.

(** One member of the object: the key selects a field by its JSON name,
    ignoring case; an unknown key is skipped. *)
Definition storeMember (d : decodeState) (key : string) (v : json.value)
  : error + decodeState :=
  if strings.EqualFold key "max_amount_wei" then
    match v with
    | json.Null =>
        inr {| target := {| MaxAmountWei := None;
                            Whitelist := Whitelist (target d) |};
               savedError := savedError d |}
    | _ =>
        match UnmarshalJSON_Int v with
        | inl e => inl e
        | inr z =>
            inr {| target := {| MaxAmountWei := Some z;
                                Whitelist := Whitelist (target d) |};
                   savedError := savedError d |}
        end
    end
  else if strings.EqualFold key "whitelist" then
    match v with
    | json.Null =>
        inr {| target := {| MaxAmountWei := MaxAmountWei (target d);
                            Whitelist := [] |};
               savedError := savedError d |}
    | json.Array vs =>
        let (l, d1) := storeStrings vs d in
        inr {| target := {| MaxAmountWei := MaxAmountWei (target d1);
                            Whitelist := l |};
               savedError := savedError d1 |}
    | _ => inr (saveError d (UnmarshalTypeError (kindName v) "[]string"))
    end
  else inr d.

Fixpoint storeMembers (ms : list (string * json.value)) (d : decodeState)
  : error + decodeState :=
  match ms with
  | [] => inr d
  | (key, v) :: rest =>
      match storeMember d key v with
      | inl e => inl e
      | inr d1 => storeMembers rest d1
      end
  end.

Definition zeroPolicy : Policy := {| MaxAmountWei := None; Whitelist := [] |}.

Definition decodePolicy (v : json.value) : error + Policy :=
  match v with
  | json.Null => inr zeroPolicy
  | json.Object ms =>
      match storeMembers ms {| target := zeroPolicy; savedError := None |} with
      | inl e => inl e
      | inr d =>
          match savedError d with
          | Some e => inl e
          | None => inr (target d)
          end
      end
  | _ => inl (UnmarshalTypeError (kindName v) "main.Policy")
  end.

Definition Unmarshal (data : string) : error + Policy :=
  match json.parse data with
  | None => inl SyntaxError
  | Some v => decodePolicy v
  end.

(** ** Two small monads

    [Exec] is for code that works on the objects behind its pointer
    arguments and may panic; [Run] is for [main], which calls its
    collaborators in order and ends the process at the first failure. *)

Class Monad (M : Type -> Type) : Type := {
  ret : forall {A : Type}, A -> M A;
  bind : forall {A B : Type}, M A -> (A -> M B) -> M B
}.

Declare Scope monad_scope.
Delimit Scope monad_scope with monad.
Notation "x <- m ;; k" := (bind m (fun x => k))
  (at level 61, m at next level, right associativity) : monad_scope.
Notation "m ;;; k" := (bind m (fun _ => k))
  (at level 61, right associativity) : monad_scope.
Local Open Scope monad_scope.

(** What a call gives back: a value, or a run-time panic. *)
Inductive result (A : Type) : Type :=
| Returned (a : A)
| Panicked (msg : string).
Arguments Returned {A} a.
Arguments Panicked {A} msg.

(** The objects [checkPolicy] reaches through its pointers: the [Policy]
    behind [policy] and the [big.Int] behind [amount]. *)
Record Heap : Type := {
  policy_obj : Policy;
  amount_obj : Z
}.

Definition Exec (A : Type) : Type := Heap -> result A * Heap.

#[global] Instance Monad_Exec : Monad Exec := {
  ret := fun A a h => (Returned a, h);
  bind := fun A B m k h =>
    match m h with
    | (Returned a, h') => k a h'
    | (Panicked msg, h') => (Panicked msg, h')
    end
}.

Definition load {A : Type} (field : Heap -> A) : Exec A :=
  fun h => (Returned (field h), h).

Definition panic {A : Type} (msg : string) : Exec A :=
  fun h => (Panicked msg, h).

(** ** package main: [checkPolicy] *)

(** The loop over [policy.Whitelist]: [allowed] is set, and the loop left, at
    the first entry that [EqualFold] finds equal to [to.Hex()]. *)
Fixpoint rangeWhitelist (whitelist : list string) (to : common.Address)
    (allowed : bool) : bool :=
  match whitelist with
  | [] => allowed
  | addr :: rest =>
      if strings.EqualFold addr (common.Hex to) then true
      else rangeWhitelist rest to allowed
  end.

Definition checkPolicy (to : common.Address) : Exec (option error) :=
  (* Check whitelist *)
  whitelist <- load (fun h => Whitelist (policy_obj h)) ;;
  let allowed := rangeWhitelist whitelist to false in
  if negb allowed then
    ret (Some (errors.New "recipient not in whitelist"))
  else
    (* Check amount *)
    amount <- load amount_obj ;;
    max <- load (fun h => MaxAmountWei (policy_obj h)) ;;
    match max with
    | None =>
        (* [Cmp] reads through its nil argument *)
        panic "invalid memory address or nil pointer dereference"
    | Some y =>
        if big.Cmp amount y >? 0 then
          ret (Some (errors.New "amount exceeds max policy limit"))
        else ret None
    end.

(** The evaluator of the specification: the decision of [checkPolicy] on a
    policy, a recipient and an amount. *)
Definition evaluate (P : Policy) (r : common.Address) (a : Z)
  : result (option error) :=
  fst (checkPolicy r {| policy_obj := P; amount_obj := a |}).

Abbreviation Allow := (Returned None).
Abbreviation Deny reason := (Returned (Some (errorString reason))).

Definition addrA1 : string := "0xaaaaaaaaaaaaaaaaaaaaaaaaaaaaaaaaaaaaaaa1".
Definition addrB2 : string := "0xbbbbbbbbbbbbbbbbbbbbbbbbbbbbbbbbbbbbbbb2".
Definition policy1 : Policy :=
  {| MaxAmountWei := Some 1000;
     Whitelist := ["0xAAAAAAAAAAAAAAAAAAAAAAAAAAAAAAAAAAAAAAA1"] |}.

(** ** The collaborators of the pipeline

    What [main] calls and this development does not open: the file system,
    the decoding of the key, the signature and the wire encoding. *)

Class Collaborators : Type := {
  PrivateKey : Type;
  SignedTx : Type;
  (** [os.ReadFile] *)
  ReadFile : string -> error + string;
  (** [crypto.HexToECDSA] *)
  HexToECDSA : string -> error + PrivateKey;
  (** [types.SignTx] *)
  SignTx : types.Transaction -> types.Signer -> PrivateKey -> error + SignedTx;
  (** [MarshalBinary] of the signed transaction *)
  MarshalBinary : SignedTx -> error + list Z
}.

(** The command line, as [flag.Parse] leaves it. *)
Record Flags : Type := {
  privKeyHex : string;
  toAddr : string;
  amountWeiStr : string;
  nonce : Z;
  chainID : Z;
  policyFile : string
}.

(** What a run does, in order. *)
Inductive Event : Type :=
| CallHexToECDSA (hexKey : string)
| CallReadFile (file : string)
| CallCheckPolicy (policy : Policy) (to : common.Address) (amount : Z)
    (decision : result (option error))
| CallSignTx (tx : types.Transaction) (signer : types.Signer)
| CallMarshalBinary
| Println (line : string).

(** How a run ends: [main] returns, [log.Fatal] exits with its message and
    cause, or the run time panics. *)
Inductive Exit : Type :=
| Exit0
| Fatal (msg : string) (cause : option error)
| Panic (msg : string).

Definition Run (A : Type) : Type := list Event * (A + Exit).

#[global] Instance Monad_Run : Monad Run := {
  ret := fun A a => ([], inl a);
  bind := fun A B m k =>
    match m with
    | (t, inl a) => let (t', r) := k a in (t ++ t', r)
    | (t, inr e) => (t, inr e)
    end
}.

Definition emit (ev : Event) : Run unit := ([ev], inl tt).
Definition stop {A : Type} (e : Exit) : Run A := ([], inr e).

(** [if err != nil { log.Fatalf(msg, err) }] *)
Definition orFatalf {A : Type} (msg : string) (r : error + A) : Run A :=
  match r with
  | inl err => stop (Fatal msg (Some err))
  | inr a => ret a
  end.

Definition trace {A : Type} (r : Run A) : list Event := fst r.
Definition exit (r : Run unit) : Exit :=
  match snd r with
  | inl _ => Exit0
  | inr e => e
  end.

Section Pipeline.

Context {world : Collaborators}.

Definition loadPrivateKey (hexKey : string) : error + PrivateKey :=
  HexToECDSA (strings.TrimPrefix hexKey "0x").

Definition loadPolicy (file : string) : error + Policy :=
  match ReadFile file with
  | inl err => inl err
  | inr data =>
      match Unmarshal data with
      | inl err => inl err
      | inr policy => inr policy
      end
  end.

Definition main (f : Flags) : Run unit :=
  if ((privKeyHex f =? "") || (toAddr f =? ""))%string then
    stop (Fatal "key and to are required" None)
  else
    emit (CallHexToECDSA (privKeyHex f)) ;;;
    privateKey <- orFatalf "failed to load private key: "
                    (loadPrivateKey (privKeyHex f)) ;;
    emit (CallReadFile (policyFile f)) ;;;
    policy <- orFatalf "failed to load policy: " (loadPolicy (policyFile f)) ;;
    amountWei <- match big.SetString (amountWeiStr f) with
                 | Some z => ret z
                 | None => stop (Fatal "invalid amount" None)
                 end ;;
    let to := common.HexToAddress (toAddr f) in
    (* Policy checks *)
    let heap := {| policy_obj := policy; amount_obj := amountWei |} in
    let (decision, heap) := checkPolicy to heap in
    emit (CallCheckPolicy policy to amountWei decision) ;;;
    match decision with
    | Panicked msg => stop (Panic msg)
    | Returned (Some err) => stop (Fatal "policy check failed: " (Some err))
    | Returned None =>
        (* Create transaction *)
        let tx := types.NewTransaction (nonce f) to (amount_obj heap)
                    21000 1000000000 [] in
        (* Sign transaction *)
        let signer := types.LatestSignerForChainID (chainID f) in
        emit (CallSignTx tx signer) ;;;
        signedTx <- orFatalf "failed to sign tx: " (SignTx tx signer privateKey) ;;
        (* Serialize *)
        emit CallMarshalBinary ;;;
        rawTxBytes <- orFatalf "failed to serialize tx: " (MarshalBinary signedTx) ;;
        emit (Println ("RawTxHex: " ++ hex.EncodeToString rawTxBytes)%string)
    end.

(** The runs of [main], one per stage at which it can end. *)
Inductive Stage (f : Flags) : list Event -> Exit -> Prop :=
| AtFlags :
    ((privKeyHex f =? "") || (toAddr f =? ""))%string = true ->
    Stage f [] (Fatal "key and to are required" None)
| AtKey err :
    loadPrivateKey (privKeyHex f) = inl err ->
    Stage f [CallHexToECDSA (privKeyHex f)]
      (Fatal "failed to load private key: " (Some err))
| AtPolicy key err :
    loadPrivateKey (privKeyHex f) = inr key ->
    loadPolicy (policyFile f) = inl err ->
    Stage f [CallHexToECDSA (privKeyHex f); CallReadFile (policyFile f)]
      (Fatal "failed to load policy: " (Some err))
| AtAmount key policy :
    loadPrivateKey (privKeyHex f) = inr key ->
    loadPolicy (policyFile f) = inr policy ->
    big.SetString (amountWeiStr f) = None ->
    Stage f [CallHexToECDSA (privKeyHex f); CallReadFile (policyFile f)]
      (Fatal "invalid amount" None)
| AtCheck key policy amount decision e :
    loadPrivateKey (privKeyHex f) = inr key ->
    loadPolicy (policyFile f) = inr policy ->
    big.SetString (amountWeiStr f) = Some amount ->
    evaluate policy (common.HexToAddress (toAddr f)) amount = decision ->
    match decision with
    | Panicked msg => e = Panic msg
    | Returned (Some err) => e = Fatal "policy check failed: " (Some err)
    | Returned None => False
    end ->
    Stage f [CallHexToECDSA (privKeyHex f); CallReadFile (policyFile f);
             CallCheckPolicy policy (common.HexToAddress (toAddr f))
               amount decision] e
| AtSign key policy amount t e :
    loadPrivateKey (privKeyHex f) = inr key ->
    loadPolicy (policyFile f) = inr policy ->
    big.SetString (amountWeiStr f) = Some amount ->
    evaluate policy (common.HexToAddress (toAddr f)) amount = Allow ->
    let tx := types.NewTransaction (nonce f) (common.HexToAddress (toAddr f))
                amount 21000 1000000000 [] in
    let signer := types.LatestSignerForChainID (chainID f) in
    match SignTx tx signer key with
    | inl err => t = [] /\ e = Fatal "failed to sign tx: " (Some err)
    | inr signedTx =>
        match MarshalBinary signedTx with
        | inl err =>
            t = [CallMarshalBinary]
            /\ e = Fatal "failed to serialize tx: " (Some err)
        | inr raw =>
            t = [CallMarshalBinary;
                 Println ("RawTxHex: " ++ hex.EncodeToString raw)%string]
            /\ e = Exit0
        end
    end ->
    Stage f ([CallHexToECDSA (privKeyHex f); CallReadFile (policyFile f);
              CallCheckPolicy policy (common.HexToAddress (toAddr f))
                amount Allow;
              CallSignTx tx signer] ++ t) e.

(** The events that only a run past the policy check has. *)
Definition after_check (ev : Event) : Prop :=
  match ev with
  | CallSignTx _ _ | CallMarshalBinary | Println _ => True
  | _ => False
  end.

End Pipeline.

(** A world to run the pipeline in: one policy file, a key decoder that
    wants 64 hex digits, a signature that pairs the transaction with its
    chain, and an encoder that, as RLP does, refuses a negative value. *)
Definition demoWorld (policyJSON : string) : Collaborators := {|
  PrivateKey := list Z;
  SignedTx := types.Transaction * Z;
  ReadFile := fun file =>
    if (file =? "policy.json")%string then inr policyJSON
    else inl (errorString "open: no such file or directory");
  HexToECDSA := fun hexkey =>
    match hex.DecodeString hexkey with
    | (key, None) =>
        if (List.length key =? 32)%nat then inr key
        else inl (errorString "invalid length, need 256 bits")
    | (_, Some _) => inl (errorString "invalid hex character in private key")
    end;
  SignTx := fun tx signer _ => inr (tx, types.chainId signer);
  MarshalBinary := fun stx =>
    if types.Value (fst stx) <? 0
    then inl (errorString "rlp: cannot encode negative big.Int")
    else inr [0xf8; Z.land (types.Nonce (fst stx)) 255;
              Z.land (types.Value (fst stx)) 255; Z.land (snd stx) 255]
|}.

Definition demoKey : string :=
  "0x4c0883a69102937d6231471b5dbb6204fe5129617082792ae468d01a3f362318".

Definition demoPolicy : string :=
  q "{'max_amount_wei': 1000, 'whitelist': ['0xAAAAAAAAAAAAAAAAAAAAAAAAAAAAAAAAAAAAAAA1']}".

Definition demoFlags (to amount : string) : Flags :=
  {| privKeyHex := demoKey; toAddr := to; amountWeiStr := amount;
     nonce := 7; chainID := 1; policyFile := "policy.json" |}.

(** ** Notions used in the statements *)

(** The 256 bytes: a property of one byte that computes is decided by
    running it on all of them. *)
Definition all_bytes : list Z := map Z.of_nat (seq 0 256).

(** The values of a Go [byte]. *)
Definition is_byte (b : Z) : Prop := 0 <= b < 256.

(** An address value: twenty bytes. *)
Definition is_address (a : common.Address) : Prop :=
  List.length a = common.AddressLength /\ Forall is_byte a.

(** Equality of two results of [hex.fromHexChar]. *)
Definition opt_eqb (x y : option Z) : bool :=
  match x, y with
  | Some a, Some b => a =? b
  | None, None => true
  | _, _ => false
  end.

(** A byte is plain when it is ASCII and none of k, K, s, S: the orbit of its
    case folding stays within ASCII. [Address.Hex] is made of such bytes. *)
Definition plainb (b : Z) : bool :=
  (b <? 128) && negb (lower_byte b =? 107) && negb (lower_byte b =? 115).

Fixpoint plain (s : string) : bool :=
  match s with
  | EmptyString => true
  | String c rest => plainb (byte_of c) && plain rest
  end.

(** Which operand of the rune makes it at least 0x80, by the leading byte
    and the second byte that [utf8.first] accepts after it. *)
Definition high2 (s0 s1 : Z) : bool :=
  match utf8.first s0 with
  | None => true
  | Some (sz, lo, hi) =>
      if (s1 <? lo) || (hi <? s1) then true
      else if (sz <=? 2)%nat then 128 <=? Z.shiftl (Z.land s0 0x1F) 6
      else if (sz <=? 3)%nat
      then (128 <=? Z.shiftl (Z.land s0 0x0F) 12)
           || (128 <=? Z.shiftl (Z.land s1 0x3F) 6)
      else (128 <=? Z.shiftl (Z.land s0 0x07) 18)
           || (128 <=? Z.shiftl (Z.land s1 0x3F) 12)
  end.

(** The digits of [hex.hextable]. *)
Definition lowerhexb (b : Z) : bool :=
  ((48 <=? b) && (b <=? 57)) || ((97 <=? b) && (b <=? 102)).

Fixpoint lowerhex (s : string) : bool :=
  match s with
  | EmptyString => true
  | String c rest => lowerhexb (byte_of c) && lowerhex rest
  end.

(** What the checksum does to one digit: nothing, or its upper case. *)
Definition digit_fact (c : ascii) : bool :=
  if lowerhexb (byte_of c) then
    Ascii.eqb (lower_char c) c && plainb (byte_of c)
    && (if 57 <? byte_of c
        then Ascii.eqb (lower_char (char_of (byte_of c - 32))) c
             && plainb (byte_of (char_of (byte_of c - 32)))
        else true)
  else true.

(** A whitelist entry matches an address exactly when, letter case apart, it
    is "0x" followed by the digits of the address. *)
Definition matches (entry : string) (to : common.Address) : Prop :=
  lower entry = common.hex to.

(** The members of a JSON object none of whose keys selects the field
    [MaxAmountWei]. *)
Definition no_max_key (ms : list (string * json.value)) : Prop :=
  forall key v, In (key, v) ms -> strings.EqualFold key "max_amount_wei" = false.

(** The hex digits, of either case, and the strings made of them. *)
Definition hexdigitb (c : ascii) : bool :=
  match hex.fromHexChar c with
  | Some _ => true
  | None => false
  end.

Fixpoint hexstring (s : string) : bool :=
  match s with
  | EmptyString => true
  | String c rest => hexdigitb c && hexstring rest
  end.

(** A recipient written in full: "0x" or "0X" and forty hex digits. *)
Definition canonical (s : string) : bool :=
  match s with
  | String c0 (String c1 d) =>
      (byte_of c0 =? 48) && ((byte_of c1 =? 120) || (byte_of c1 =? 88))
      && hexstring d && (String.length d =? 40)%nat
  | _ => false
  end.

(** The address of twenty zero bytes. *)
Definition zeroAddress : common.Address := repeat 0 20.

(** The decimal digits, and the number a string of them writes after [acc]. *)
Fixpoint decimalb (s : string) : bool :=
  match s with
  | EmptyString => true
  | String c rest =>
      (48 <=? byte_of c) && (byte_of c <=? 57) && decimalb rest
  end.

Fixpoint decimal (acc : Z) (s : string) : Z :=
  match s with
  | EmptyString => acc
  | String c rest => decimal (acc * 10 + (byte_of c - 48)) rest
  end.

(** What one byte and one pair of hex digits do through [hex.Encode] and
    [hex.DecodeString]. *)
Definition byte_trip (v : Z) : bool :=
  opt_eqb (hex.fromHexChar (hex.digit (Z.shiftr v 4))) (Some (Z.shiftr v 4))
  && opt_eqb (hex.fromHexChar (hex.digit (Z.land v 15))) (Some (Z.land v 15))
  && (Z.lor (Z.shiftl (Z.shiftr v 4) 4) (Z.land v 15) =? v).

Definition pair_trip (p q : Z) : bool :=
  match hex.fromHexChar (char_of p), hex.fromHexChar (char_of q) with
  | Some a, Some b =>
      Ascii.eqb (hex.digit (Z.shiftr (Z.lor (Z.shiftl a 4) b) 4))
                (lower_char (char_of p))
      && Ascii.eqb (hex.digit (Z.land (Z.lor (Z.shiftl a 4) b) 15))
                   (lower_char (char_of q))
  | _, _ => true
  end.

(** The flags with another key. *)
Definition withKey (f : Flags) (hexKey : string) : Flags :=
  {| privKeyHex := hexKey; toAddr := toAddr f; amountWeiStr := amountWeiStr f;
     nonce := nonce f; chainID := chainID f; policyFile := policyFile f |}.

(** * Properties *)

(** ** Runs of the definitions *)

Example keccak_empty :
  hex.Encode (keccak.Sum256 []) =
  "c5d2460186f7233c927e7db2dcc703c0e500b653ca82273b7bfad8045d85a470".
Proof. vm_compute. reflexivity. Qed.

Example Hex_eip55 :
  common.Hex (common.HexToAddress "0x5AAEB6053F3E94C9B9A09F33669435E7EF1BEAED")
  = "0x5aAeb6053F3E94C9b9A09f33669435E7Ef1BeAed".
Proof. vm_compute. reflexivity. Qed.

Example HexToAddress_short :
  common.Hex (common.HexToAddress "a1") = "0x00000000000000000000000000000000000000A1".
Proof. vm_compute. reflexivity. Qed.

Example HexToAddress_not_hex :
  common.Hex (common.HexToAddress "not an address")
  = "0x0000000000000000000000000000000000000000".
Proof. vm_compute. reflexivity. Qed.

Example EqualFold_mixed_case : strings.EqualFold "0xAbCdEf" "0XaBcDeF" = true.
Proof. reflexivity. Qed.

Example EqualFold_kelvin :
  strings.EqualFold (string_of_bytes [0xE2; 0x84; 0xAA]) "k" = true.
Proof. vm_compute. reflexivity. Qed.

Example EqualFold_no_prefix : strings.EqualFold "abcdef" "0xabcdef" = false.
Proof. reflexivity. Qed.

Example SetString_plain : big.SetString "1000" = Some 1000.
Proof. reflexivity. Qed.
Example SetString_negative : big.SetString "-5" = Some (-5).
Proof. reflexivity. Qed.
Example SetString_empty : big.SetString "" = None.
Proof. reflexivity. Qed.
Example SetString_junk : big.SetString "12a" = None.
Proof. reflexivity. Qed.
Example SetString_sign_only : big.SetString "-" = None.
Proof. reflexivity. Qed.

Example parse_object :
  json.parse (q "{'max_amount_wei': 1000, 'whitelist': ['0xAb', '0x01']}")
  = Some (json.Object [("max_amount_wei", json.Number "1000");
                       ("whitelist", json.Array [json.Str "0xAb"; json.Str "0x01"])]).
Proof. vm_compute. reflexivity. Qed.

Example Unmarshal_full :
  Unmarshal (q "{'max_amount_wei': 1000, 'whitelist': ['0xAb']}")
  = inr {| MaxAmountWei := Some 1000; Whitelist := ["0xAb"] |}.
Proof. vm_compute. reflexivity. Qed.

Example Unmarshal_truncated :
  Unmarshal (q "{'max_amount_wei': 1000, 'whitelist': ['0xAb'") = inl SyntaxError.
Proof. vm_compute. reflexivity. Qed.

Example Unmarshal_quoted_amount :
  Unmarshal (q "{'max_amount_wei': '1000'}") = inl (BigIntError "string").
Proof. vm_compute. reflexivity. Qed.

Example Unmarshal_fraction :
  Unmarshal (q "{'max_amount_wei': 1.5}") = inl (BigIntError "1.5").
Proof. vm_compute. reflexivity. Qed.

Example scenario_allow :
  evaluate policy1 (common.HexToAddress addrA1) 1000 = Allow.
Proof. vm_compute. reflexivity. Qed.

Example scenario_not_whitelisted :
  evaluate policy1 (common.HexToAddress addrB2) 1 = Deny "recipient not in whitelist".
Proof. vm_compute. reflexivity. Qed.

Example scenario_over_limit :
  evaluate policy1 (common.HexToAddress addrA1) 1001
  = Deny "amount exceeds max policy limit".
Proof. vm_compute. reflexivity. Qed.

Example end_to_end_1 :
  exit (@main (demoWorld demoPolicy) (demoFlags addrA1 "1000")) = Exit0
  /\ In (Println "RawTxHex: f807e801")
        (trace (@main (demoWorld demoPolicy) (demoFlags addrA1 "1000"))).
Proof. vm_compute. split; [reflexivity | tauto]. Qed.

Example end_to_end_2 :
  exit (@main (demoWorld demoPolicy) (demoFlags addrB2 "1"))
  = Fatal "policy check failed: " (Some (errorString "recipient not in whitelist")).
Proof. vm_compute. reflexivity. Qed.

Example end_to_end_3 :
  exit (@main (demoWorld demoPolicy) (demoFlags addrA1 "1001"))
  = Fatal "policy check failed: "
      (Some (errorString "amount exceeds max policy limit")).
Proof. vm_compute. reflexivity. Qed.

(** ** Bytes *)

Lemma byte_of_range (c : ascii) : 0 <= byte_of c < 256.
Proof.
  unfold byte_of. pose proof (N_ascii_bounded c). lia.
Qed.

Lemma char_of_byte_of (c : ascii) : char_of (byte_of c) = c.
Proof.
  unfold char_of, byte_of. rewrite N2Z.id. apply ascii_N_embedding.
Qed.

Lemma byte_of_char_of (b : Z) : 0 <= b < 256 -> byte_of (char_of b) = b.
Proof.
  intros Hb. unfold char_of, byte_of.
  rewrite N_ascii_embedding by lia. lia.
Qed.

Lemma byte_of_inj (c d : ascii) : byte_of c = byte_of d -> c = d.
Proof.
  intros H. rewrite <- (char_of_byte_of c), <- (char_of_byte_of d). now rewrite H.
Qed.

Lemma all_bytes_spec (P : Z -> bool) :
  forallb P all_bytes = true -> forall b, 0 <= b < 256 -> P b = true.
Proof.
  intros H b Hb. rewrite forallb_forall in H. apply H.
  unfold all_bytes. apply in_map_iff. exists (Z.to_nat b). split; [lia|].
  apply in_seq. lia.
Qed.

Lemma all_chars_spec (P : ascii -> bool) :
  forallb (fun b => P (char_of b)) all_bytes = true -> forall c, P c = true.
Proof.
  intros H c. rewrite <- (char_of_byte_of c).
  apply (all_bytes_spec (fun b => P (char_of b)) H). apply byte_of_range.
Qed.

(** Induction on a string two bytes at a time, as [hex.DecodeString] reads
    it. *)
Lemma string_pair_ind (P : string -> Prop) :
  P EmptyString ->
  (forall c, P (String c EmptyString)) ->
  (forall c d s, P s -> P (String c (String d s))) ->
  forall s, P s.
Proof.
  intros H0 H1 H2 s.
  assert (H : P s /\ forall c, P (String c s)).
  { induction s as [|d s [IH1 IH2]]; split; auto. }
  apply H.
Qed.

(** ** Addresses *)

Lemma fromHexChar_range (c : ascii) (v : Z) :
  hex.fromHexChar c = Some v -> 0 <= v < 16.
Proof.
  unfold hex.fromHexChar.
  repeat match goal with
         | |- context [if ?b then _ else _] => destruct b eqn:?
         end; intros H; inversion H; subst; lia.
Qed.

Lemma nibbles_byte (a b : Z) :
  0 <= a < 16 -> 0 <= b < 16 -> is_byte (Z.lor (Z.shiftl a 4) b).
Proof.
  intros Ha Hb. unfold is_byte.
  assert (Hor : Z.lor (Z.shiftl a 4) b < 2 ^ 8).
  { destruct (Z.eq_dec (Z.lor (Z.shiftl a 4) b) 0) as [->|Hnz]; [lia|].
    apply Z.log2_lt_pow2.
    - pose proof (Z.lor_nonneg (Z.shiftl a 4) b).
      pose proof (Z.shiftl_nonneg a 4). lia.
    - rewrite Z.log2_lor.
      + apply Z.max_lub_lt.
        * destruct (Z.eq_dec a 0) as [->|]; [simpl; lia|].
          rewrite Z.log2_shiftl by lia.
          assert (Z.log2 a < 4) by (apply Z.log2_lt_pow2; lia). lia.
        * destruct (Z.eq_dec b 0) as [->|]; [simpl; lia|].
          assert (Z.log2 b < 4) by (apply Z.log2_lt_pow2; lia). lia.
      + apply Z.shiftl_nonneg. lia.
      + lia. }
  pose proof (Z.lor_nonneg (Z.shiftl a 4) b).
  pose proof (Z.shiftl_nonneg a 4). lia.
Qed.

Lemma DecodeString_bytes (s : string) : Forall is_byte (fst (hex.DecodeString s)).
Proof.
  induction s as [|c|c d s IH] using string_pair_ind.
  - constructor.
  - simpl. destruct (hex.fromHexChar c); constructor.
  - simpl. destruct (hex.fromHexChar c) as [a|] eqn:Ha; [|constructor].
    destruct (hex.fromHexChar d) as [b|] eqn:Hb; [|constructor].
    destruct (hex.DecodeString s) as [bytes err]. simpl in *.
    constructor; [|exact IH].
    apply nibbles_byte; eapply fromHexChar_range; eassumption.
Qed.

Lemma BytesToAddress_length (b : list Z) :
  List.length (common.BytesToAddress b) = common.AddressLength.
Proof.
  unfold common.BytesToAddress, common.AddressLength.
  destruct (20 <? List.length b)%nat eqn:Hlen.
  - apply Nat.ltb_lt in Hlen.
    rewrite length_app, repeat_length, length_skipn. lia.
  - apply Nat.ltb_ge in Hlen.
    rewrite length_app, repeat_length. lia.
Qed.

Lemma Forall_skipn {A : Type} (P : A -> Prop) (n : nat) (l : list A) :
  Forall P l -> Forall P (skipn n l).
Proof.
  revert l. induction n as [|n IH]; intros l H; [exact H|].
  destruct l; [constructor|]. simpl. apply IH. now inversion H.
Qed.

Lemma BytesToAddress_bytes (b : list Z) :
  Forall is_byte b -> Forall is_byte (common.BytesToAddress b).
Proof.
  intros H. unfold common.BytesToAddress.
  apply Forall_app. split.
  - apply Forall_forall. intros x Hx. apply repeat_spec in Hx. subst. red. lia.
  - destruct (_ <? _)%nat; [now apply Forall_skipn | exact H].
Qed.

Lemma HexToAddress_is_address (s : string) : is_address (common.HexToAddress s).
Proof.
  split.
  - apply BytesToAddress_length.
  - apply BytesToAddress_bytes. apply DecodeString_bytes.
Qed.

(** *** Letter case in the recipient string *)

Lemma opt_eqb_eq (x y : option Z) : opt_eqb x y = true -> x = y.
Proof.
  destruct x, y; simpl; intros H; try discriminate; auto.
  apply Z.eqb_eq in H. now subst.
Qed.

Lemma fromHexChar_lower (c : ascii) :
  hex.fromHexChar (lower_char c) = hex.fromHexChar c.
Proof.
  apply opt_eqb_eq. revert c. apply all_chars_spec. vm_compute. reflexivity.
Qed.

Lemma is0_lower (c : ascii) : (byte_of (lower_char c) =? 48) = (byte_of c =? 48).
Proof.
  apply eqb_prop. revert c. apply all_chars_spec. vm_compute. reflexivity.
Qed.

Lemma isx_lower (c : ascii) :
  ((byte_of (lower_char c) =? 120) || (byte_of (lower_char c) =? 88))
  = ((byte_of c =? 120) || (byte_of c =? 88)).
Proof.
  apply eqb_prop. revert c. apply all_chars_spec. vm_compute. reflexivity.
Qed.

Lemma lower_length (s : string) : String.length (lower s) = String.length s.
Proof. induction s; simpl; congruence. Qed.

Lemma lower_drop (n : nat) (s : string) : lower (drop n s) = drop n (lower s).
Proof.
  revert s. induction n as [|n IH]; intros [|c s]; simpl; auto.
Qed.

Lemma has0xPrefix_lower (s : string) :
  common.has0xPrefix (lower s) = common.has0xPrefix s.
Proof.
  destruct s as [|c0 [|c1 s]]; simpl; auto.
  now rewrite is0_lower, isx_lower.
Qed.

Lemma DecodeString_lower (s : string) :
  fst (hex.DecodeString (lower s)) = fst (hex.DecodeString s).
Proof.
  induction s as [|c|c d s IH] using string_pair_ind.
  - reflexivity.
  - simpl. rewrite fromHexChar_lower. now destruct (hex.fromHexChar c).
  - simpl. rewrite !fromHexChar_lower.
    destruct (hex.fromHexChar c); [|reflexivity].
    destruct (hex.fromHexChar d); [|reflexivity].
    destruct (hex.DecodeString (lower s)), (hex.DecodeString s).
    simpl in *. now subst.
Qed.

Lemma FromHex_lower (s : string) : common.FromHex (lower s) = common.FromHex s.
Proof.
  unfold common.FromHex, common.Hex2Bytes.
  rewrite has0xPrefix_lower.
  assert (H : forall t, fst (hex.DecodeString
                (if Nat.odd (String.length (lower t)) then String "0" (lower t)
                 else lower t))
              = fst (hex.DecodeString
                (if Nat.odd (String.length t) then String "0" t else t))).
  { intros t. rewrite lower_length. destruct (Nat.odd _).
    - apply (DecodeString_lower (String "0" t)).
    - apply DecodeString_lower. }
  destruct (common.has0xPrefix s).
  - rewrite <- lower_drop. apply H.
  - apply H.
Qed.

Lemma HexToAddress_lower (s : string) :
  common.HexToAddress (lower s) = common.HexToAddress s.
Proof. unfold common.HexToAddress. now rewrite FromHex_lower. Qed.

(** Two spellings of a recipient that differ in letter case only name the
    same address. *)
Lemma HexToAddress_fold (s1 s2 : string) :
  lower s1 = lower s2 -> common.HexToAddress s1 = common.HexToAddress s2.
Proof.
  intros H. rewrite <- (HexToAddress_lower s1), <- (HexToAddress_lower s2).
  now rewrite H.
Qed.

(** The prefix of the recipient string is optional. *)
Lemma HexToAddress_prefix (s : string) :
  common.has0xPrefix s = false ->
  common.HexToAddress (String "0" (String "x" s)) = common.HexToAddress s.
Proof.
  intros H. unfold common.HexToAddress, common.FromHex.
  rewrite H. reflexivity.
Qed.

(** ** [strings.EqualFold] against a string of plain ASCII *)

Lemma all_bytes2_spec (P : Z -> Z -> bool) :
  forallb (fun a => forallb (P a) all_bytes) all_bytes = true ->
  forall a b, is_byte a -> is_byte b -> P a b = true.
Proof.
  intros H a b Ha Hb.
  pose proof (all_bytes_spec _ H a Ha) as H1. simpl in H1.
  exact (all_bytes_spec _ H1 b Hb).
Qed.

Lemma lor_high (a b : Z) :
  is_byte a -> is_byte b -> (128 <=? Z.lor a b) = ((128 <=? a) || (128 <=? b)).
Proof.
  intros Ha Hb. apply eqb_prop.
  apply (all_bytes2_spec
           (fun a b => Bool.eqb (128 <=? Z.lor a b) ((128 <=? a) || (128 <=? b))));
    [vm_compute; reflexivity | assumption | assumption].
Qed.

(** The test of the ASCII fast path is equality of the lower-cased bytes. *)
Lemma ascii_fold (a b : Z) :
  is_byte a -> is_byte b ->
  ((b =? a) || ((65 <=? Z.min a b) && (Z.min a b <=? 90)
                && (Z.max a b =? Z.min a b + 32)))
  = (lower_byte a =? lower_byte b).
Proof.
  intros Ha Hb. apply eqb_prop.
  apply (all_bytes2_spec
           (fun a b =>
              Bool.eqb ((b =? a) || ((65 <=? Z.min a b) && (Z.min a b <=? 90)
                                     && (Z.max a b =? Z.min a b + 32)))
                       (lower_byte a =? lower_byte b)));
    [vm_compute; reflexivity | assumption | assumption].
Qed.

Lemma lower_byte_range (b : Z) : is_byte b -> is_byte (lower_byte b).
Proof.
  unfold is_byte, lower_byte. intros H.
  destruct ((65 <=? b) && (b <=? 90)) eqn:E; [|lia].
  apply andb_true_iff in E. lia.
Qed.

Lemma lower_char_eq (c d : ascii) :
  lower_char c = lower_char d <->
  lower_byte (byte_of c) = lower_byte (byte_of d).
Proof.
  unfold lower_char. split; intros H.
  - apply (f_equal byte_of) in H.
    now rewrite !byte_of_char_of in H
      by (apply lower_byte_range, byte_of_range).
  - now rewrite H.
Qed.

(** The orbit of a plain byte: its other case, and back. *)
Lemma SimpleFold_plain (b : Z) :
  is_byte b -> plainb b = true ->
  unicode.SimpleFold b < 128
  /\ unicode.SimpleFold (unicode.SimpleFold b) = b.
Proof.
  intros Hb Hp.
  assert (H : (if plainb b
               then (unicode.SimpleFold b <? 128)
                    && (unicode.SimpleFold (unicode.SimpleFold b) =? b)
               else true) = true).
  { apply (all_bytes_spec
             (fun b => if plainb b
                       then (unicode.SimpleFold b <? 128)
                            && (unicode.SimpleFold (unicode.SimpleFold b) =? b)
                       else true)); [vm_compute; reflexivity | exact Hb]. }
  rewrite Hp in H. apply andb_true_iff in H. destruct H as [H1 H2].
  split; [now apply Z.ltb_lt | now apply Z.eqb_eq].
Qed.

(** A rune beyond ASCII folds to no plain byte. *)
Lemma runesFold_plain_high (sr tr : Z) :
  is_byte tr -> plainb tr = true -> 128 <= sr ->
  strings.runesFold sr tr = false.
Proof.
  intros Hb Hp Hs.
  assert (Htr : tr < 128).
  { unfold plainb in Hp. rewrite !andb_true_iff in Hp.
    destruct Hp as [[Hlt _] _]. now apply Z.ltb_lt. }
  destruct (SimpleFold_plain tr Hb Hp) as [Hf1 Hf2].
  unfold strings.runesFold.
  replace (tr =? sr) with false by (symmetry; apply Z.eqb_neq; lia).
  rewrite Z.min_r, Z.max_l by lia.
  unfold utf8.RuneSelf.
  replace (sr <? 128) with false by (symmetry; apply Z.ltb_ge; lia).
  apply Z.eqb_neq.
  cbn [strings.foldTo].
  destruct (unicode.SimpleFold tr =? tr) eqn:E1; cbn [negb andb].
  - lia.
  - replace (unicode.SimpleFold tr <? sr) with true
      by (symmetry; apply Z.ltb_lt; lia).
    rewrite Hf2, Z.eqb_refl. cbn [negb andb]. lia.
Qed.

Lemma lor_ge_128 (a b : Z) :
  0 <= a -> 0 <= b -> 128 <= a \/ 128 <= b -> 128 <= Z.lor a b.
Proof.
  intros Ha Hb H.
  assert (Hpos : 0 < Z.lor a b).
  { assert (0 <= Z.lor a b) by (apply Z.lor_nonneg; lia).
    assert (Z.lor a b <> 0) by (rewrite Z.lor_eq_0_iff; lia). lia. }
  change 128 with (2 ^ 7). apply Z.log2_le_pow2; [exact Hpos|].
  rewrite Z.log2_lor by assumption.
  destruct H as [H|H].
  - assert (7 <= Z.log2 a) by (apply Z.log2_le_pow2; [lia | exact H]). lia.
  - assert (7 <= Z.log2 b) by (apply Z.log2_le_pow2; [lia | exact H]). lia.
Qed.

Lemma high2_all (s0 s1 : Z) : is_byte s0 -> is_byte s1 -> high2 s0 s1 = true.
Proof.
  apply (all_bytes2_spec high2). vm_compute. reflexivity.
Qed.

Lemma land_shift_nonneg (x m k : Z) : 0 <= x -> 0 <= Z.shiftl (Z.land x m) k.
Proof.
  intros Hx. apply Z.shiftl_nonneg. apply Z.land_nonneg. now left.
Qed.

Lemma land_byte_nonneg (c : ascii) (m : Z) : 0 <= Z.land (byte_of c) m.
Proof. apply Z.land_nonneg. left. apply byte_of_range. Qed.

(** A byte that is not ASCII starts a rune that is not ASCII. *)
Lemma DecodeRune_high (c0 : ascii) (rest : string) :
  128 <= byte_of c0 ->
  128 <= fst (utf8.DecodeRuneInString (String c0 rest)).
Proof.
  intros H0. unfold utf8.DecodeRuneInString, utf8.RuneSelf.
  replace (byte_of c0 <? 128) with false by (symmetry; apply Z.ltb_ge; lia).
  destruct (utf8.first (byte_of c0)) as [[[sz lo] hi]|] eqn:Hf;
    [|cbn; unfold utf8.RuneError; lia].
  destruct rest as [|c1 r1]; [cbn; unfold utf8.RuneError; lia|].
  pose proof (high2_all (byte_of c0) (byte_of c1)
                (byte_of_range c0) (byte_of_range c1)) as Hh.
  unfold high2 in Hh. rewrite Hf in Hh.
  pose proof (byte_of_range c0) as R0. pose proof (byte_of_range c1) as R1.
  destruct ((byte_of c1 <? lo) || (hi <? byte_of c1));
    [cbn; unfold utf8.RuneError; lia|].
  destruct (sz <=? 2)%nat.
  { cbn [fst]. apply Z.leb_le in Hh.
    apply lor_ge_128; [apply land_shift_nonneg; lia
                      | apply land_byte_nonneg | now left]. }
  destruct r1 as [|c2 r2]; [cbn; unfold utf8.RuneError; lia|].
  destruct (negb (utf8.cont (byte_of c2))); [cbn; unfold utf8.RuneError; lia|].
  destruct (sz <=? 3)%nat.
  { cbn [fst]. apply orb_true_iff in Hh. rewrite !Z.leb_le in Hh.
    destruct Hh as [Hh|Hh].
    - apply lor_ge_128; [apply land_shift_nonneg; lia | | now left].
      apply Z.lor_nonneg. split;
        [apply land_shift_nonneg; lia | apply land_byte_nonneg].
    - apply lor_ge_128; [apply land_shift_nonneg; lia | | right].
      + apply Z.lor_nonneg. split;
          [apply land_shift_nonneg; lia | apply land_byte_nonneg].
      + apply lor_ge_128; [apply land_shift_nonneg; lia
                          | apply land_byte_nonneg | now left]. }
  destruct r2 as [|c3 r3]; [cbn; unfold utf8.RuneError; lia|].
  destruct (negb (utf8.cont (byte_of c3))); [cbn; unfold utf8.RuneError; lia|].
  cbn [fst]. apply orb_true_iff in Hh. rewrite !Z.leb_le in Hh.
  pose proof (byte_of_range c2) as R2.
  assert (Hin : 0 <= Z.lor (Z.shiftl (Z.land (byte_of c2) 63) 6)
                           (Z.land (byte_of c3) 63)).
  { apply Z.lor_nonneg. split;
      [apply land_shift_nonneg; lia | apply land_byte_nonneg]. }
  assert (Hmid : 0 <= Z.lor (Z.shiftl (Z.land (byte_of c1) 63) 12)
                    (Z.lor (Z.shiftl (Z.land (byte_of c2) 63) 6)
                           (Z.land (byte_of c3) 63))).
  { apply Z.lor_nonneg. split; [apply land_shift_nonneg; lia | exact Hin]. }
  destruct Hh as [Hh|Hh].
  - apply lor_ge_128; [apply land_shift_nonneg; lia | exact Hmid | now left].
  - apply lor_ge_128; [apply land_shift_nonneg; lia | exact Hmid | right].
    apply lor_ge_128; [apply land_shift_nonneg; lia | exact Hin | now left].
Qed.

Lemma EqualFold_cons (cs ct : ascii) (s' t' : string) :
  strings.EqualFold (String cs s') (String ct t') =
  if utf8.RuneSelf <=? Z.lor (byte_of cs) (byte_of ct)
  then strings.equalFoldUnicode (String.length (String cs s'))
         (String cs s') (String ct t')
  else if byte_of ct =? byte_of cs then strings.EqualFold s' t'
  else if (65 <=? Z.min (byte_of cs) (byte_of ct))
          && (Z.min (byte_of cs) (byte_of ct) <=? 90)
          && (Z.max (byte_of cs) (byte_of ct)
              =? Z.min (byte_of cs) (byte_of ct) + 32)
  then strings.EqualFold s' t' else false.
Proof. reflexivity. Qed.

Lemma equalFoldUnicode_high (cs ct : ascii) (s' t' : string) :
  128 <= byte_of cs -> plainb (byte_of ct) = true ->
  strings.equalFoldUnicode (String.length (String cs s'))
    (String cs s') (String ct t') = false.
Proof.
  intros Hs Hp.
  pose proof (DecodeRune_high cs s' Hs) as Hr.
  cbn [String.length strings.equalFoldUnicode].
  destruct (utf8.DecodeRuneInString (String cs s')) as [sr size].
  cbn [fst] in Hr.
  assert (Hct : byte_of ct < 128).
  { unfold plainb in Hp. rewrite !andb_true_iff in Hp.
    destruct Hp as [[Hlt _] _]. now apply Z.ltb_lt. }
  unfold utf8.RuneSelf.
  replace (byte_of ct <? 128) with true by (symmetry; apply Z.ltb_lt; lia).
  now rewrite (runesFold_plain_high sr (byte_of ct) (byte_of_range ct) Hp Hr).
Qed.

(** Against a plain string, [EqualFold] is equality up to ASCII case. *)
Lemma EqualFold_plain (s t : string) :
  plain t = true ->
  (strings.EqualFold s t = true <-> lower s = lower t).
Proof.
  revert t. induction s as [|cs s' IH]; intros [|ct t'] Hp.
  - split; reflexivity.
  - split; discriminate.
  - split; discriminate.
  - cbn [plain] in Hp. apply andb_true_iff in Hp. destruct Hp as [Hpc Hp'].
    pose proof (byte_of_range cs) as Rs. pose proof (byte_of_range ct) as Rt.
    assert (Hct : byte_of ct < 128).
    { unfold plainb in Hpc. rewrite !andb_true_iff in Hpc.
      destruct Hpc as [[Hlt _] _]. now apply Z.ltb_lt. }
    rewrite EqualFold_cons. unfold utf8.RuneSelf.
    rewrite (lor_high _ _ Rs Rt).
    replace (128 <=? byte_of ct) with false by (symmetry; apply Z.leb_gt; lia).
    rewrite orb_false_r.
    cbn [lower].
    destruct (128 <=? byte_of cs) eqn:Hhigh.
    + apply Z.leb_le in Hhigh.
      rewrite (equalFoldUnicode_high cs ct s' t' Hhigh Hpc).
      split; [discriminate|]. intros H. exfalso.
      injection H as Hc _. apply lower_char_eq in Hc.
      unfold lower_byte in Hc.
      destruct ((65 <=? byte_of cs) && (byte_of cs <=? 90)) eqn:E1;
        destruct ((65 <=? byte_of ct) && (byte_of ct <=? 90)) eqn:E2;
        rewrite ?andb_true_iff, ?Z.leb_le in *; lia.
    + pose proof (ascii_fold _ _ Rs Rt) as Hf.
      assert (Hiff : (lower_byte (byte_of cs) =? lower_byte (byte_of ct)) = true
                     <-> lower_char cs = lower_char ct).
      { rewrite Z.eqb_eq. symmetry. apply lower_char_eq. }
      destruct (byte_of ct =? byte_of cs) eqn:E1.
      * cbn [orb] in Hf. rewrite <- Hf in Hiff.
        rewrite (IH t' Hp'). split.
        -- intros H. f_equal; [now apply Hiff | exact H].
        -- intros H. now injection H.
      * cbn [orb] in Hf. rewrite Hf.
        destruct (lower_byte (byte_of cs) =? lower_byte (byte_of ct)) eqn:E2.
        -- rewrite (IH t' Hp'). split.
           ++ intros H. f_equal; [now apply Hiff | exact H].
           ++ intros H. now injection H.
        -- split; [discriminate|]. intros H. injection H as Hc _.
           apply Hiff in Hc. discriminate.
Qed.

(** ** The text of an address *)

Lemma digit_lowerhex (n : Z) : lowerhexb (byte_of (hex.digit n)) = true.
Proof.
  unfold hex.digit, hex.hextable.
  generalize (Z.to_nat n) as k. intros k.
  do 17 (destruct k as [|k]; [reflexivity|]). reflexivity.
Qed.

Lemma Encode_lowerhex (a : list Z) : lowerhex (hex.Encode a) = true.
Proof.
  induction a as [|v a IH]; [reflexivity|].
  cbn [hex.Encode lowerhex]. now rewrite !digit_lowerhex, IH.
Qed.

Lemma digit_fact_all (c : ascii) : digit_fact c = true.
Proof. revert c. apply all_chars_spec. vm_compute. reflexivity. Qed.

Lemma checksum_spec (buf : string) :
  lowerhex buf = true ->
  forall i hash,
    lower (common.checksum i hash buf) = buf
    /\ plain (common.checksum i hash buf) = true.
Proof.
  induction buf as [|c rest IH]; intros Hl i hash; [split; reflexivity|].
  cbn [lowerhex] in Hl. apply andb_true_iff in Hl. destruct Hl as [Hc Hrest].
  pose proof (digit_fact_all c) as Hf. unfold digit_fact in Hf.
  rewrite Hc in Hf. rewrite !andb_true_iff in Hf. destruct Hf as [[H1 H2] H3].
  apply Ascii.eqb_eq in H1.
  cbn [common.checksum].
  set (hashByte := if i mod 2 =? 0 then _ else _).
  set (hash' := if i mod 2 =? 0 then hash else tl hash).
  destruct (IH Hrest (i + 1) hash') as [IH1 IH2].
  destruct (57 <? byte_of c) eqn:E; cbn [andb].
  - apply andb_true_iff in H3. destruct H3 as [H3 H4]. apply Ascii.eqb_eq in H3.
    destruct (7 <? hashByte); cbn [lower plain].
    + rewrite H3, H4, IH1, IH2. split; reflexivity.
    + rewrite H1, H2, IH1, IH2. split; reflexivity.
  - cbn [lower plain]. rewrite H1, H2, IH1, IH2. split; reflexivity.
Qed.

(** [to.Hex()] is, up to letter case, "0x" and the forty lowercase digits. *)
Lemma Hex_lower (a : common.Address) : lower (common.Hex a) = common.hex a.
Proof.
  unfold common.Hex, common.checksumHex, common.hex. cbn [lower].
  destruct (checksum_spec (hex.Encode a) (Encode_lowerhex a) 2
              (keccak.Sum256 (bytes_of_string (hex.Encode a)))) as [H _].
  rewrite H. reflexivity.
Qed.

Lemma Hex_plain (a : common.Address) : plain (common.Hex a) = true.
Proof.
  unfold common.Hex, common.checksumHex. cbn [plain].
  destruct (checksum_spec (hex.Encode a) (Encode_lowerhex a) 2
              (keccak.Sum256 (bytes_of_string (hex.Encode a)))) as [_ H].
  rewrite H. reflexivity.
Qed.

Lemma EqualFold_Hex (entry : string) (to : common.Address) :
  strings.EqualFold entry (common.Hex to) = true <-> matches entry to.
Proof.
  unfold matches. rewrite (EqualFold_plain entry _ (Hex_plain to)).
  now rewrite Hex_lower.
Qed.

(** ** The evaluator *)

Lemma rangeWhitelist_true (whitelist : list string) (to : common.Address) :
  rangeWhitelist whitelist to false = true <->
  exists entry, In entry whitelist /\ matches entry to.
Proof.
  induction whitelist as [|addr rest IH]; cbn [rangeWhitelist].
  - split; [discriminate | intros (e & [] & _)].
  - destruct (strings.EqualFold addr (common.Hex to)) eqn:E.
    + split; [|reflexivity]. intros _. exists addr. split; [now left|].
      now apply EqualFold_Hex.
    + rewrite IH. split.
      * intros (e & Hin & Hm). exists e. split; [now right | exact Hm].
      * intros (e & [<-|Hin] & Hm).
        -- apply EqualFold_Hex in Hm. congruence.
        -- exists e. split; assumption.
Qed.

Lemma rangeWhitelist_false (whitelist : list string) (to : common.Address) :
  rangeWhitelist whitelist to false = false <->
  forall entry, In entry whitelist -> ~ matches entry to.
Proof.
  rewrite <- not_true_iff_false, rangeWhitelist_true. split.
  - intros H e Hin Hm. apply H. now exists e.
  - intros H (e & Hin & Hm). exact (H e Hin Hm).
Qed.

(** [checkPolicy] only reads: the heap it leaves is the heap it found, and its
    decision is a function of the policy, the recipient and the amount. *)
Lemma checkPolicy_run (to : common.Address) (h : Heap) :
  checkPolicy to h =
  (if negb (rangeWhitelist (Whitelist (policy_obj h)) to false)
   then Deny "recipient not in whitelist"
   else match MaxAmountWei (policy_obj h) with
        | None => Panicked "invalid memory address or nil pointer dereference"
        | Some y =>
            if big.Cmp (amount_obj h) y >? 0
            then Deny "amount exceeds max policy limit"
            else Allow
        end,
   h).
Proof.
  unfold checkPolicy, load, panic. cbn.
  destruct (negb _); [reflexivity|].
  destruct (MaxAmountWei (policy_obj h)); [|reflexivity].
  destruct (big.Cmp (amount_obj h) z >? 0); reflexivity.
Qed.

Lemma Cmp_gt (x y : Z) : (big.Cmp x y >? 0) = (x >? y).
Proof.
  unfold big.Cmp. rewrite (Z.gtb_ltb x y), Z.ltb_compare, (Z.compare_antisym x y).
  destruct (x ?= y); reflexivity.
Qed.

(** C4. A recipient whose address matches no entry of the whitelist is denied
    with the whitelist reason whatever the amount and the limit are: the
    amount is not looked at, so the amount-limit reason is never given. *)
Theorem checkPolicy_not_whitelisted (P : Policy) (r : common.Address) (a : Z) :
  (forall entry, In entry (Whitelist P) -> ~ matches entry r) ->
  evaluate P r a = Deny "recipient not in whitelist"
  /\ evaluate P r a <> Deny "amount exceeds max policy limit".
Proof.
  intros H. apply rangeWhitelist_false in H.
  assert (E : evaluate P r a = Deny "recipient not in whitelist").
  { unfold evaluate. rewrite checkPolicy_run. cbn [fst policy_obj].
    now rewrite H. }
  split; [exact E|]. rewrite E. discriminate.
Qed.

Lemma checkPolicy_not_whitelisted_witness :
  evaluate policy1 (common.HexToAddress addrB2) 5000
  = Deny "recipient not in whitelist"
  /\ evaluate policy1 (common.HexToAddress addrB2) 5000
     <> Deny "amount exceeds max policy limit".
Proof.
  apply (checkPolicy_not_whitelisted policy1 (common.HexToAddress addrB2) 5000).
  intros entry [<-|[]]. vm_compute. discriminate.
Defined.

(** C5. For a recipient on the whitelist the limit is inclusive: an amount up
    to the maximum is allowed, an amount above it is denied with the
    amount-limit reason. *)
Theorem checkPolicy_amount (P : Policy) (r : common.Address) (a m : Z) :
  MaxAmountWei P = Some m ->
  (exists entry, In entry (Whitelist P) /\ matches entry r) ->
  (a <= m -> evaluate P r a = Allow)
  /\ (a > m -> evaluate P r a = Deny "amount exceeds max policy limit").
Proof.
  intros Hm Hw. apply rangeWhitelist_true in Hw.
  unfold evaluate. rewrite checkPolicy_run. cbn [fst policy_obj amount_obj].
  rewrite Hw, Hm, Cmp_gt. cbn [negb].
  split; intros Ha.
  - replace (a >? m) with false; [reflexivity|].
    symmetry. rewrite Z.gtb_ltb. apply Z.ltb_ge. lia.
  - replace (a >? m) with true; [reflexivity|].
    symmetry. rewrite Z.gtb_ltb. apply Z.ltb_lt. lia.
Qed.

Lemma checkPolicy_amount_witness :
  (1000 <= 1000 -> evaluate policy1 (common.HexToAddress addrA1) 1000 = Allow)
  /\ (1000 > 1000 ->
      evaluate policy1 (common.HexToAddress addrA1) 1000
      = Deny "amount exceeds max policy limit").
Proof.
  apply (checkPolicy_amount policy1 (common.HexToAddress addrA1) 1000 1000).
  - reflexivity.
  - exists "0xAAAAAAAAAAAAAAAAAAAAAAAAAAAAAAAAAAAAAAA1". split.
    + left. reflexivity.
    + vm_compute. reflexivity.
Defined.

(** C7. With an empty whitelist every evaluation is the whitelist denial. *)
Theorem checkPolicy_empty_whitelist (P : Policy) (r : common.Address) (a : Z) :
  Whitelist P = [] ->
  evaluate P r a = Deny "recipient not in whitelist".
Proof.
  intros H. unfold evaluate. rewrite checkPolicy_run. cbn [fst policy_obj].
  rewrite H. reflexivity.
Qed.

Lemma checkPolicy_empty_whitelist_witness :
  evaluate {| MaxAmountWei := Some 1000; Whitelist := [] |}
           (common.HexToAddress addrA1) 1
  = Deny "recipient not in whitelist".
Proof.
  apply (checkPolicy_empty_whitelist
           {| MaxAmountWei := Some 1000; Whitelist := [] |}
           (common.HexToAddress addrA1) 1).
  reflexivity.
Defined.

(** C9. Evaluation is deterministic and has no effect: a call leaves the
    policy and the amount behind its pointers as they were, and a second call
    with the same recipient gives the same decision. *)
Theorem checkPolicy_pure (to : common.Address) (h : Heap) :
  let (d1, h1) := checkPolicy to h in
  let (d2, h2) := checkPolicy to h1 in
  d1 = d2 /\ h1 = h /\ h2 = h.
Proof.
  rewrite checkPolicy_run.
  rewrite checkPolicy_run. auto.
Qed.

(** ** The pipeline *)

Arguments common.HexToAddress : simpl never.
Arguments types.NewTransaction : simpl never.
Arguments types.LatestSignerForChainID : simpl never.
Arguments hex.EncodeToString : simpl never.
Arguments evaluate : simpl never.
Arguments append : simpl never.

Section PipelineProperties.

Context {world : Collaborators}.

(** The steps of [Run], and nothing of the program under them. *)
Ltac run_steps :=
  cbn [bind Monad_Run emit orFatalf ret stop app trace exit fst snd].

Lemma main_stage (f : Flags) : Stage f (trace (main f)) (exit (main f)).
Proof.
  unfold main.
  destruct ((privKeyHex f =? "") || (toAddr f =? ""))%string eqn:Hreq.
  { now apply AtFlags. }
  destruct (loadPrivateKey (privKeyHex f)) as [err|key] eqn:Hkey.
  { run_steps. now apply AtKey. }
  destruct (loadPolicy (policyFile f)) as [err|policy] eqn:Hpol.
  { run_steps. now apply (AtPolicy f key). }
  destruct (big.SetString (amountWeiStr f)) as [amount|] eqn:Hamt.
  2: { run_steps. now apply (AtAmount f key policy). }
  pose proof (checkPolicy_run (common.HexToAddress (toAddr f))
                {| policy_obj := policy; amount_obj := amount |}) as Hrun.
  assert (Hev : evaluate policy (common.HexToAddress (toAddr f)) amount
                = fst (checkPolicy (common.HexToAddress (toAddr f))
                         {| policy_obj := policy; amount_obj := amount |}))
    by reflexivity.
  run_steps.
  destruct (checkPolicy (common.HexToAddress (toAddr f))
              {| policy_obj := policy; amount_obj := amount |})
    as [decision heap] eqn:Hcp.
  injection Hrun as Hd Hh. cbn [fst] in Hev. subst heap.
  clear Hd.
  pose proof (AtSign f key policy amount) as HS. cbn zeta in HS.
  destruct decision as [[err|]|msg]; cbn [amount_obj].
  - run_steps. now apply (AtCheck f key policy amount (Returned (Some err))).
  - destruct (SignTx _ _ key) as [err|signedTx] eqn:Hsign.
    + run_steps. apply (HS [] _ Hkey Hpol Hamt Hev). auto.
    + run_steps. destruct (MarshalBinary signedTx) as [err|raw] eqn:Hm.
      * run_steps. apply (HS [CallMarshalBinary] _ Hkey Hpol Hamt Hev). auto.
      * run_steps.
        apply (HS [CallMarshalBinary; Println _] _ Hkey Hpol Hamt Hev). auto.
  - run_steps. now apply (AtCheck f key policy amount (Panicked msg)).
Qed.

Lemma flags_present (f : Flags) :
  ((privKeyHex f =? "") || (toAddr f =? ""))%string = false <->
  privKeyHex f <> "" /\ toAddr f <> "".
Proof.
  rewrite orb_false_iff, !String.eqb_neq. tauto.
Qed.

(** Once the flags are there and the key, the policy and the amount are
    read, the recipient and the amount go to [checkPolicy]. *)
Lemma main_reaches_check (f : Flags) key policy amount :
  privKeyHex f <> "" -> toAddr f <> "" ->
  loadPrivateKey (privKeyHex f) = inr key ->
  loadPolicy (policyFile f) = inr policy ->
  big.SetString (amountWeiStr f) = Some amount ->
  In (CallCheckPolicy policy (common.HexToAddress (toAddr f)) amount
        (evaluate policy (common.HexToAddress (toAddr f)) amount))
     (trace (main f)).
Proof.
  intros Hk Ht Hkey Hpol Hamt.
  assert (Hreq : ((privKeyHex f =? "") || (toAddr f =? ""))%string = false)
    by (apply flags_present; auto).
  destruct (main_stage f); try congruence.
  - replace policy0 with policy in * by congruence.
    replace amount0 with amount in * by congruence.
    subst decision. cbn. tauto.
  - replace policy0 with policy in * by congruence.
    replace amount0 with amount in * by congruence.
    rewrite H2. cbn. tauto.
Qed.

(** A run that calls the signer has read the amount and built the
    transaction from the flags. *)
Lemma no_signature_shape (f : Flags) tx signer :
  In (CallSignTx tx signer) (trace (main f)) ->
  exists amount,
    big.SetString (amountWeiStr f) = Some amount
    /\ tx = types.NewTransaction (nonce f) (common.HexToAddress (toAddr f))
              amount 21000 1000000000 [].
Proof.
  intros Hin.
  destruct (main_stage f) as [ | | | | ? ? ? ? ? ? ? ? ? ?
                             | key policy amount t e Hkey Hpol Hamt Hev tx0 signer0 Hrest];
    cbn [In app] in Hin; try (intuition discriminate).
  exists amount. split; [exact Hamt|].
  destruct Hin as [Hin|[Hin|[Hin|[Hin|Hin]]]]; try discriminate.
  - now injection Hin as <- _.
  - exfalso. destruct (SignTx tx0 signer0 key) as [err|stx].
    + destruct Hrest as [-> _]. destruct Hin.
    + destruct (MarshalBinary stx); destruct Hrest as [-> _];
        cbn in Hin; intuition discriminate.
Qed.

(** C1. A signature is only made after the evaluator has allowed the
    recipient and the amount of the request: a run that calls [SignTx] has
    called [checkPolicy] just before, on the loaded policy, and got Allow;
    a run whose evaluation is Deny ends there with that reason, without
    signing, encoding or printing anything. *)
Theorem no_signature_without_allow (f : Flags) :
  (forall tx signer,
      In (CallSignTx tx signer) (trace (main f)) ->
      exists policy amount rest,
        loadPolicy (policyFile f) = inr policy
        /\ big.SetString (amountWeiStr f) = Some amount
        /\ evaluate policy (common.HexToAddress (toAddr f)) amount = Allow
        /\ trace (main f) =
           [CallHexToECDSA (privKeyHex f); CallReadFile (policyFile f);
            CallCheckPolicy policy (common.HexToAddress (toAddr f))
              amount Allow;
            CallSignTx tx signer] ++ rest)
  /\ (forall policy to amount reason,
         In (CallCheckPolicy policy to amount (Deny reason)) (trace (main f)) ->
         exit (main f)
         = Fatal "policy check failed: " (Some (errorString reason))
         /\ forall ev, In ev (trace (main f)) -> ~ after_check ev)
  /\ (forall policy amount reason,
         loadPolicy (policyFile f) = inr policy ->
         big.SetString (amountWeiStr f) = Some amount ->
         evaluate policy (common.HexToAddress (toAddr f)) amount
         = Deny reason ->
         exit (main f) <> Exit0
         /\ forall ev, In ev (trace (main f)) -> ~ after_check ev).
Proof.
  split; [|split].
  - intros tx signer Hin.
    destruct (main_stage f) as [ | | | | ? ? ? ? ? ? ? ? ? ?
                               | key policy amount t e Hkey Hpol Hamt Hev tx0 signer0 Hrest];
      cbn in Hin; try (intuition discriminate).
    exists policy, amount, t.
    assert (Ht : forall ev, In ev t -> ev <> CallSignTx tx signer).
    { destruct (SignTx tx0 signer0 key) as [err|stx].
      - destruct Hrest as [-> _]. intros ev [].
      - destruct (MarshalBinary stx); destruct Hrest as [-> _];
          intros ev Hev'; cbn in Hev'; intuition (subst; discriminate). }
    destruct Hin as [Hin|[Hin|[Hin|[Hin|Hin]]]]; try discriminate.
    + injection Hin as <- <-. auto.
    + exfalso. exact (Ht _ Hin eq_refl).
  - intros policy to amount reason Hin.
    destruct (main_stage f) as [ | | |
                               | key policy0 amount0 decision e Hkey Hpol Hamt Hev He
                               | key policy0 amount0 t e Hkey Hpol Hamt Hev tx0 signer0 Hrest];
      cbn in Hin; try (intuition discriminate).
    + destruct Hin as [Hin|[Hin|[Hin|[]]]]; try discriminate.
      injection Hin as -> -> -> ->. cbn in He. split; [exact He|].
      intros ev Hev'. cbn in Hev'.
      destruct Hev' as [<-|[<-|[<-|[]]]]; cbn; tauto.
    + exfalso.
      destruct Hin as [Hin|[Hin|[Hin|[Hin|Hin]]]]; try discriminate.
      destruct (SignTx tx0 signer0 key) as [err|stx].
      * destruct Hrest as [-> _]. destruct Hin.
      * destruct (MarshalBinary stx); destruct Hrest as [-> _];
          cbn in Hin; intuition discriminate.
  - intros policy amount reason Hpol Hamt Hev.
    destruct (main_stage f) as [ | | |
                               | key policy0 amount0 decision e Hkey Hpol0 Hamt0 Hev0 He
                               | key policy0 amount0 t e Hkey Hpol0 Hamt0 Hev0 tx0 signer0 Hrest].
    + split; [discriminate|]. intros ev [].
    + split; [discriminate|]. intros ev [<-|[]]. cbn. tauto.
    + split; [discriminate|]. intros ev [<-|[<-|[]]]; cbn; tauto.
    + split; [discriminate|]. intros ev [<-|[<-|[]]]; cbn; tauto.
    + split.
      * destruct decision as [[err|]|msg]; cbn in He;
          [rewrite He | destruct He | rewrite He]; discriminate.
      * intros ev [<-|[<-|[<-|[]]]]; cbn; tauto.
    + exfalso.
      replace policy0 with policy in * by congruence.
      replace amount0 with amount in * by congruence.
      rewrite Hev in Hev0. discriminate.
Qed.

(** C8. The transaction handed to the signer has the fixed gas limit and gas
    price, no data, and the nonce, the recipient and the amount of the
    request. *)
Theorem transaction_fields (f : Flags) tx signer :
  In (CallSignTx tx signer) (trace (main f)) ->
  types.Gas tx = 21000
  /\ types.GasPrice tx = 1000000000
  /\ types.Data tx = []
  /\ types.Nonce tx = nonce f
  /\ types.To tx = Some (common.HexToAddress (toAddr f))
  /\ big.SetString (amountWeiStr f) = Some (types.Value tx).
Proof.
  intros Hin.
  destruct (no_signature_shape f tx signer Hin) as (amount & Hamt & ->).
  cbn. auto 6.
Qed.

(** C3, amended. An amount string that is not an optionally signed decimal
    integer ends the run with "invalid amount" before the policy is
    evaluated. The amount that reaches the evaluator is the integer the
    string denotes, and a string with a minus sign denotes a negative one:
    every parsed amount, negative or not, goes to the evaluator. *)
Theorem amount_parsing (f : Flags) :
  (big.SetString (amountWeiStr f) = None ->
     exit (main f) <> Exit0
     /\ (forall ev, In ev (trace (main f)) ->
           ev = CallHexToECDSA (privKeyHex f)
           \/ ev = CallReadFile (policyFile f))
     /\ (forall key policy,
           privKeyHex f <> "" -> toAddr f <> "" ->
           loadPrivateKey (privKeyHex f) = inr key ->
           loadPolicy (policyFile f) = inr policy ->
           exit (main f) = Fatal "invalid amount" None))
  /\ (forall policy to amount decision,
        In (CallCheckPolicy policy to amount decision) (trace (main f)) ->
        big.SetString (amountWeiStr f) = Some amount)
  /\ (forall key policy amount,
        privKeyHex f <> "" -> toAddr f <> "" ->
        loadPrivateKey (privKeyHex f) = inr key ->
        loadPolicy (policyFile f) = inr policy ->
        big.SetString (amountWeiStr f) = Some amount ->
        In (CallCheckPolicy policy (common.HexToAddress (toAddr f)) amount
              (evaluate policy (common.HexToAddress (toAddr f)) amount))
           (trace (main f)))
  /\ (forall digits abs count,
        big.scanDigits 0 0 digits = Some (abs, S count) ->
        big.SetString (String "-" digits) = Some (- abs)).
Proof.
  split; [|split; [|split]].
  - intros Hnone.
    destruct (main_stage f) as [Hreq|err Hkey|key err Hkey Hpol
                               |key policy Hkey Hpol Hamt| |];
      try congruence.
    + split; [discriminate|]. split; [intros ev []|].
      intros key policy Hk Ht. exfalso.
      apply orb_true_iff in Hreq. rewrite !String.eqb_eq in Hreq. tauto.
    + split; [discriminate|]. split; [intros ev [<-|[]]; auto|].
      intros; congruence.
    + split; [discriminate|]. split; [intros ev [<-|[<-|[]]]; auto|].
      intros; congruence.
    + split; [discriminate|]. split; [intros ev [<-|[<-|[]]]; auto|].
      reflexivity.
  - intros policy to amount decision Hin.
    destruct (main_stage f) as [ | | |
                               | key policy0 amount0 d e Hkey Hpol Hamt Hev He
                               | key policy0 amount0 t e Hkey Hpol Hamt Hev tx0 signer0 Hrest];
      cbn [In app] in Hin; try (intuition discriminate).
    + destruct Hin as [Hin|[Hin|[Hin|[]]]]; try discriminate.
      injection Hin as _ _ <- _. exact Hamt.
    + destruct Hin as [Hin|[Hin|[Hin|[Hin|Hin]]]]; try discriminate.
      * injection Hin as _ _ <- _. exact Hamt.
      * exfalso. destruct (SignTx tx0 signer0 key) as [err|stx].
        -- destruct Hrest as [-> _]. destruct Hin.
        -- destruct (MarshalBinary stx); destruct Hrest as [-> _];
             cbn in Hin; intuition discriminate.
  - intros key policy amount. apply main_reaches_check.
  - intros digits abs count H. unfold big.SetString. now rewrite H.
Qed.

(** C10. Parsing the recipient is total: every string gives a twenty-byte
    address, so that no run ends on parsing it. Once the flags are there and
    the key, the policy and the amount are read, the address the string was
    coerced to goes to the whitelist check; and every fatal exit is either
    that of another stage or the one for a flag that was not given. *)
Theorem recipient_parsing_total (f : Flags) :
  is_address (common.HexToAddress (toAddr f))
  /\ (forall key policy amount,
        privKeyHex f <> "" -> toAddr f <> "" ->
        loadPrivateKey (privKeyHex f) = inr key ->
        loadPolicy (policyFile f) = inr policy ->
        big.SetString (amountWeiStr f) = Some amount ->
        In (CallCheckPolicy policy (common.HexToAddress (toAddr f)) amount
              (evaluate policy (common.HexToAddress (toAddr f)) amount))
           (trace (main f)))
  /\ (forall msg cause,
        exit (main f) = Fatal msg cause ->
        (msg = "key and to are required"
         /\ (privKeyHex f = "" \/ toAddr f = ""))
        \/ In msg ["failed to load private key: "; "failed to load policy: ";
                   "invalid amount"; "policy check failed: ";
                   "failed to sign tx: "; "failed to serialize tx: "]).
Proof.
  split; [apply HexToAddress_is_address|]. split.
  - intros key policy amount. apply main_reaches_check.
  - intros msg cause Hexit.
    destruct (main_stage f) as [ Hreq | | |
                               | key policy amount d e Hkey Hpol Hamt Hev He
                               | key policy amount t e Hkey Hpol Hamt Hev tx0 signer0 Hrest];
      try (right; injection Hexit as <- _; cbn; tauto).
    + left. injection Hexit as <- _. split; [reflexivity|].
      apply orb_true_iff in Hreq. now rewrite !String.eqb_eq in Hreq.
    + right. destruct d as [[err|]|m]; cbn in He; try tauto; rewrite He in Hexit;
        [injection Hexit as <- _; cbn; tauto | discriminate].
    + right. destruct (SignTx tx0 signer0 key) as [err|stx].
      * destruct Hrest as [_ He]. rewrite He in Hexit.
        injection Hexit as <- _. cbn; tauto.
      * destruct (MarshalBinary stx); destruct Hrest as [_ He];
          rewrite He in Hexit;
          [injection Hexit as <- _; cbn; tauto | discriminate].
Qed.

End PipelineProperties.

(** ** Whitelist matching *)

Lemma matches_has_prefix (entry : string) (to : common.Address) :
  matches entry to -> common.has0xPrefix entry = true.
Proof.
  unfold matches, common.hex. intros H.
  rewrite <- has0xPrefix_lower, H. reflexivity.
Qed.

Lemma rangeWhitelist_fold (wl1 wl2 : list string) (to : common.Address) :
  map lower wl1 = map lower wl2 ->
  rangeWhitelist wl1 to false = rangeWhitelist wl2 to false.
Proof.
  intros Hmap.
  assert (Hdir : forall l1 l2, map lower l1 = map lower l2 ->
                  rangeWhitelist l1 to false = true ->
                  rangeWhitelist l2 to false = true).
  { intros l1 l2 Hl. rewrite !rangeWhitelist_true.
    intros (e & Hin & Hm).
    apply (in_map lower) in Hin. rewrite Hl in Hin.
    apply in_map_iff in Hin. destruct Hin as (e2 & He2 & Hin2).
    exists e2. split; [exact Hin2|]. unfold matches in *. congruence. }
  destruct (rangeWhitelist wl1 to false) eqn:E1.
  - symmetry. now apply (Hdir wl1 wl2).
  - destruct (rangeWhitelist wl2 to false) eqn:E2; [|reflexivity].
    rewrite (Hdir wl2 wl1) in E1; [discriminate | now symmetry | exact E2].
Qed.

(** C6, amended. The recipient string is normalized: its letter case and its
    "0x" prefix do not matter. The entries of the whitelist are compared as
    they are written, letter case apart: two whitelists that differ in
    letter case only decide alike, and an entry matches an address exactly
    when it is, letter case apart, "0x" followed by the forty digits, so that
    an entry written without the prefix matches no address. *)
Theorem whitelist_matching (P : Policy) (a : Z) :
  (forall s1 s2,
      lower s1 = lower s2 ->
      evaluate P (common.HexToAddress s1) a = evaluate P (common.HexToAddress s2) a)
  /\ (forall s,
         common.has0xPrefix s = false ->
         evaluate P (common.HexToAddress (String "0" (String "x" s))) a
         = evaluate P (common.HexToAddress s) a)
  /\ (forall whitelist r,
         map lower whitelist = map lower (Whitelist P) ->
         evaluate {| MaxAmountWei := MaxAmountWei P; Whitelist := whitelist |} r a
         = evaluate P r a)
  /\ (forall entry r,
         strings.EqualFold entry (common.Hex r) = true
         <-> lower entry = common.hex r)
  /\ (forall entry r,
         common.has0xPrefix entry = false ->
         evaluate {| MaxAmountWei := MaxAmountWei P; Whitelist := [entry] |} r a
         = Deny "recipient not in whitelist").
Proof.
  split; [|split; [|split; [|split]]].
  - intros s1 s2 H. now rewrite (HexToAddress_fold s1 s2 H).
  - intros s H. now rewrite (HexToAddress_prefix s H).
  - intros whitelist r H. unfold evaluate. rewrite !checkPolicy_run.
    cbn [fst policy_obj amount_obj MaxAmountWei Whitelist].
    now rewrite (rangeWhitelist_fold whitelist (Whitelist P) r H).
  - intros entry r. apply EqualFold_Hex.
  - intros entry r H. unfold evaluate. rewrite checkPolicy_run.
    cbn [fst policy_obj Whitelist rangeWhitelist].
    destruct (strings.EqualFold entry (common.Hex r)) eqn:E; [|reflexivity].
    apply EqualFold_Hex, matches_has_prefix in E. congruence.
Qed.

Lemma whitelist_matching_witness :
  evaluate policy1
    (common.HexToAddress "0xAAAAAAAAAAAAAAAAAAAAAAAAAAAAAAAAAAAAAAA1") 1000
  = evaluate policy1 (common.HexToAddress addrA1) 1000.
Proof.
  apply (whitelist_matching policy1 1000).
  vm_compute. reflexivity.
Defined.

(** C6 as stated fails: a whitelist entry without the prefix does not match
    the address that the same entry with the prefix matches. *)
Lemma unprefixed_entry_no_match :
  evaluate {| MaxAmountWei := Some 1000;
              Whitelist := ["aaaaaaaaaaaaaaaaaaaaaaaaaaaaaaaaaaaaaaa1"] |}
           (common.HexToAddress addrA1) 1
  = Deny "recipient not in whitelist"
  /\ evaluate {| MaxAmountWei := Some 1000;
                 Whitelist := ["0xaaaaaaaaaaaaaaaaaaaaaaaaaaaaaaaaaaaaaaa1"] |}
              (common.HexToAddress addrA1) 1
     = Allow.
Proof. vm_compute. split; reflexivity. Qed.

(** ** Loading the policy *)

Lemma storeStrings_target (vs : list json.value) (d : decodeState) :
  target (snd (storeStrings vs d)) = target d.
Proof.
  revert d. induction vs as [|v vs IH]; intros d; [reflexivity|].
  cbn [storeStrings].
  destruct v;
    match goal with
    | |- context [storeStrings vs ?d1] =>
        specialize (IH d1); destruct (storeStrings vs d1); cbn [snd] in *;
        rewrite IH; reflexivity
    end.
Qed.

Lemma storeStrings_Str (wl : list string) (d : decodeState) :
  storeStrings (map json.Str wl) d = (wl, d).
Proof.
  induction wl as [|s wl IH]; [reflexivity|].
  cbn [map storeStrings]. now rewrite IH.
Qed.

(** Without the key of the maximum the decoder cannot fail hard and leaves
    the maximum as it was. *)
Lemma storeMembers_no_max (ms : list (string * json.value)) (d : decodeState) :
  no_max_key ms ->
  exists d', storeMembers ms d = inr d'
             /\ MaxAmountWei (target d') = MaxAmountWei (target d).
Proof.
  revert d. induction ms as [|[key v] ms IH]; intros d Hno.
  - exists d. split; reflexivity.
  - assert (Hkey : strings.EqualFold key "max_amount_wei" = false)
      by (apply (Hno key v); now left).
    assert (Hrest : no_max_key ms)
      by (intros k w Hin; apply (Hno k w); now right).
    cbn [storeMembers]. unfold storeMember. rewrite Hkey.
    destruct (strings.EqualFold key "whitelist").
    + destruct v as [|b|lit|s|elems|members];
        try match goal with
            | |- exists d', storeMembers ms ?d0 = _ /\ _ =>
                destruct (IH d0 Hrest) as (d' & Hd' & Hm); exists d';
                split; [exact Hd' | rewrite Hm; reflexivity]
            end.
      pose proof (storeStrings_target elems d) as Ht.
      destruct (storeStrings elems d) as [l d1]. cbn [snd] in Ht.
      destruct (IH {| target := {| MaxAmountWei := MaxAmountWei (target d1);
                                   Whitelist := l |};
                      savedError := savedError d1 |} Hrest) as (d' & Hd' & Hm).
      exists d'. split; [exact Hd'|]. rewrite Hm. cbn. now rewrite Ht.
    + destruct (IH d Hrest) as (d' & Hd' & Hm). now exists d'.
Qed.

Lemma decodePolicy_no_max (ms : list (string * json.value)) (P : Policy) :
  no_max_key ms ->
  decodePolicy (json.Object ms) = inr P -> MaxAmountWei P = None.
Proof.
  intros Hno. cbn [decodePolicy].
  destruct (storeMembers_no_max ms {| target := zeroPolicy; savedError := None |} Hno)
    as (d' & -> & Hm).
  destruct (savedError d'); [discriminate|].
  intros H. injection H as <-. exact Hm.
Qed.

(** A maximum that loads is null or an integer literal. *)
Lemma storeMembers_max_kind (ms : list (string * json.value)) :
  forall d d' key v,
    storeMembers ms d = inr d' -> In (key, v) ms ->
    strings.EqualFold key "max_amount_wei" = true ->
    v = json.Null
    \/ exists lit z, v = json.Number lit /\ big.SetString lit = Some z.
Proof.
  induction ms as [|[key0 v0] ms IH]; intros d d' key v Hs Hin Hkey;
    [destruct Hin|].
  cbn [storeMembers] in Hs.
  destruct (storeMember d key0 v0) as [e|d1] eqn:E; [discriminate|].
  destruct Hin as [Hin|Hin]; [|exact (IH d1 d' key v Hs Hin Hkey)].
  injection Hin as -> ->. unfold storeMember in E. rewrite Hkey in E.
  destruct v as [|b|lit|s|elems|members]; cbn in E; try discriminate.
  - now left.
  - right. destruct (big.SetString lit) as [z|] eqn:Hz; [|discriminate].
    now exists lit, z.
Qed.

(** A policy without a maximum is not an unlimited one. *)
Lemma no_maximum_no_allow (P : Policy) (r : common.Address) (a : Z) :
  MaxAmountWei P = None -> evaluate P r a <> Allow.
Proof.
  intros H. unfold evaluate. rewrite checkPolicy_run.
  cbn [fst policy_obj]. rewrite H.
  destruct (negb _); discriminate.
Qed.

(** C2, amended. Loading fails, and returns no policy, when the file cannot
    be read, when its bytes are not a JSON text, or when the maximum is given
    as anything but null or an integer literal. A text without the
    maximum-amount field loads, with the maximum absent, and an integer
    maximum loads as written, negative or not. A policy with the maximum
    absent is never evaluated to Allow. *)
Theorem loadPolicy_outcomes {world : Collaborators} (file : string) :
  (forall err, ReadFile file = inl err -> loadPolicy file = inl err)
  /\ (forall data,
         ReadFile file = inr data -> json.parse data = None ->
         loadPolicy file = inl SyntaxError)
  /\ (forall data ms key v P,
         ReadFile file = inr data ->
         json.parse data = Some (json.Object ms) ->
         In (key, v) ms -> strings.EqualFold key "max_amount_wei" = true ->
         loadPolicy file = inr P ->
         v = json.Null
         \/ exists lit z, v = json.Number lit /\ big.SetString lit = Some z)
  /\ (forall data ms P,
         ReadFile file = inr data ->
         json.parse data = Some (json.Object ms) -> no_max_key ms ->
         loadPolicy file = inr P -> MaxAmountWei P = None)
  /\ (forall data whitelist,
         ReadFile file = inr data ->
         json.parse data
         = Some (json.Object
                   [("whitelist", json.Array (map json.Str whitelist))]) ->
         loadPolicy file
         = inr {| MaxAmountWei := None; Whitelist := whitelist |})
  /\ (forall data lit z whitelist,
         ReadFile file = inr data ->
         json.parse data
         = Some (json.Object
                   [("max_amount_wei", json.Number lit);
                    ("whitelist", json.Array (map json.Str whitelist))]) ->
         big.SetString lit = Some z ->
         loadPolicy file
         = inr {| MaxAmountWei := Some z; Whitelist := whitelist |})
  /\ (forall P r a, MaxAmountWei P = None -> evaluate P r a <> Allow).
Proof.
  unfold loadPolicy, Unmarshal.
  split; [|split; [|split; [|split; [|split; [|split]]]]].
  - intros err ->. reflexivity.
  - intros data -> ->. reflexivity.
  - intros data ms key v P -> -> Hin Hkey. cbn [decodePolicy].
    destruct (storeMembers ms {| target := zeroPolicy; savedError := None |})
      as [e|d'] eqn:Hs; [discriminate|].
    intros _. exact (storeMembers_max_kind ms _ d' key v Hs Hin Hkey).
  - intros data ms P -> -> Hno H.
    apply (decodePolicy_no_max ms P Hno).
    destruct (decodePolicy (json.Object ms)); congruence.
  - intros data whitelist -> ->.
    cbn [decodePolicy storeMembers]. unfold storeMember.
    replace (strings.EqualFold "whitelist" "max_amount_wei") with false
      by (vm_compute; reflexivity).
    replace (strings.EqualFold "whitelist" "whitelist") with true
      by (vm_compute; reflexivity).
    rewrite storeStrings_Str. reflexivity.
  - intros data lit z whitelist -> -> Hz.
    cbn [decodePolicy storeMembers]. unfold storeMember.
    replace (strings.EqualFold "max_amount_wei" "max_amount_wei") with true
      by (vm_compute; reflexivity).
    cbn [UnmarshalJSON_Int]. rewrite Hz.
    replace (strings.EqualFold "whitelist" "max_amount_wei") with false
      by (vm_compute; reflexivity).
    replace (strings.EqualFold "whitelist" "whitelist") with true
      by (vm_compute; reflexivity).
    rewrite storeStrings_Str. reflexivity.
  - apply no_maximum_no_allow.
Qed.

Lemma loadPolicy_outcomes_witness :
  @loadPolicy (demoWorld (q "{'whitelist': ['0xAb', '0x01']}")) "policy.json"
  = inr {| MaxAmountWei := None; Whitelist := ["0xAb"; "0x01"] |}.
Proof.
  destruct (@loadPolicy_outcomes
              (demoWorld (q "{'whitelist': ['0xAb', '0x01']}")) "policy.json")
    as (_ & _ & _ & _ & H & _).
  apply (H (q "{'whitelist': ['0xAb', '0x01']}") ["0xAb"; "0x01"]).
  - reflexivity.
  - vm_compute. reflexivity.
Defined.

(** C2 as stated fails: a text without the maximum-amount field loads, and so
    does one with a negative maximum. *)
Lemma loadPolicy_missing_or_negative_maximum :
  @loadPolicy
    (demoWorld (q "{'whitelist': ['0xaaaaaaaaaaaaaaaaaaaaaaaaaaaaaaaaaaaaaaa1']}"))
    "policy.json"
  = inr {| MaxAmountWei := None;
           Whitelist := ["0xaaaaaaaaaaaaaaaaaaaaaaaaaaaaaaaaaaaaaaa1"] |}
  /\ @loadPolicy (demoWorld (q "{'max_amount_wei': -5, 'whitelist': []}"))
       "policy.json"
     = inr {| MaxAmountWei := Some (-5); Whitelist := [] |}.
Proof. vm_compute. split; reflexivity. Qed.

(** ** Runs of the pipeline *)

Lemma no_signature_without_allow_witness :
  exit (@main (demoWorld demoPolicy) (demoFlags addrB2 "1"))
  = Fatal "policy check failed: " (Some (errorString "recipient not in whitelist"))
  /\ forall ev,
       In ev (trace (@main (demoWorld demoPolicy) (demoFlags addrB2 "1"))) ->
       ~ after_check ev.
Proof.
  destruct (@no_signature_without_allow (demoWorld demoPolicy)
              (demoFlags addrB2 "1")) as (_ & H & _).
  apply (H policy1 (common.HexToAddress addrB2) 1 "recipient not in whitelist").
  vm_compute. tauto.
Defined.

Lemma transaction_fields_witness :
  types.Gas (types.NewTransaction 7 (common.HexToAddress addrA1) 1000
               21000 1000000000 []) = 21000
  /\ big.SetString (amountWeiStr (demoFlags addrA1 "1000")) = Some 1000.
Proof.
  destruct (@transaction_fields (demoWorld demoPolicy) (demoFlags addrA1 "1000")
              (types.NewTransaction 7 (common.HexToAddress addrA1) 1000
                 21000 1000000000 [])
              (types.LatestSignerForChainID 1))
    as (H1 & _ & _ & _ & _ & H6).
  - vm_compute. tauto.
  - split; [exact H1 | exact H6].
Defined.

Lemma amount_parsing_witness :
  exit (@main (demoWorld demoPolicy) (demoFlags addrA1 "12a"))
  = Fatal "invalid amount" None.
Proof.
  destruct (@amount_parsing (demoWorld demoPolicy) (demoFlags addrA1 "12a"))
    as (H & _).
  destruct H as (_ & _ & H); [reflexivity|].
  apply (H (fst (hex.DecodeString (drop 2 demoKey))) policy1).
  - discriminate.
  - discriminate.
  - vm_compute. reflexivity.
  - vm_compute. reflexivity.
Defined.

(** C3 as stated fails: the string "-5" is read as the integer -5, which goes
    to the evaluator, is allowed, and is put in the transaction given to the
    signer; the run does not end with "invalid amount". *)
Lemma negative_amount_is_evaluated :
  big.SetString "-5" = Some (-5)
  /\ trace (@main (demoWorld demoPolicy) (demoFlags addrA1 "-5"))
     = [CallHexToECDSA demoKey; CallReadFile "policy.json";
        CallCheckPolicy policy1 (common.HexToAddress addrA1) (-5) Allow;
        CallSignTx (types.NewTransaction 7 (common.HexToAddress addrA1) (-5)
                      21000 1000000000 [])
                   (types.LatestSignerForChainID 1);
        CallMarshalBinary]
  /\ exit (@main (demoWorld demoPolicy) (demoFlags addrA1 "-5"))
     = Fatal "failed to serialize tx: "
         (Some (errorString "rlp: cannot encode negative big.Int")).
Proof. vm_compute. repeat split; reflexivity. Qed.

Lemma recipient_parsing_total_witness :
  In (CallCheckPolicy policy1 (common.HexToAddress "not an address") 1
        (Deny "recipient not in whitelist"))
     (trace (@main (demoWorld demoPolicy) (demoFlags "not an address" "1"))).
Proof.
  destruct (@recipient_parsing_total (demoWorld demoPolicy)
              (demoFlags "not an address" "1")) as (_ & H & _).
  apply (H (fst (hex.DecodeString (drop 2 demoKey))) policy1 1).
  - discriminate.
  - discriminate.
  - vm_compute. reflexivity.
  - vm_compute. reflexivity.
  - reflexivity.
Defined.

(** A recipient string that is no address at all is taken for the zero
    address, and passes a whitelist that lists the zero address. *)
Example malformed_recipient_allowed :
  evaluate {| MaxAmountWei := Some 1000;
              Whitelist := ["0x0000000000000000000000000000000000000000"] |}
           (common.HexToAddress "not an address") 1
  = Allow.
Proof. vm_compute. reflexivity. Qed.

(** * Further properties of the code *)

(** ** Hex text and addresses *)

Lemma byte_trip_all (v : Z) : is_byte v -> byte_trip v = true.
Proof. apply (all_bytes_spec byte_trip). vm_compute. reflexivity. Qed.

Lemma Encode_cons (v : Z) (rest : list Z) :
  hex.Encode (v :: rest)
  = String (hex.digit (Z.shiftr v 4))
      (String (hex.digit (Z.land v 15)) (hex.Encode rest)).
Proof. reflexivity. Qed.

Lemma DecodeString_pair (p q : ascii) (rest : string) :
  hex.DecodeString (String p (String q rest))
  = match hex.fromHexChar p, hex.fromHexChar q with
    | None, _ => ([], Some (hex.InvalidByteError p))
    | Some _, None => ([], Some (hex.InvalidByteError q))
    | Some a, Some b =>
        let (bytes, err) := hex.DecodeString rest in
        (Z.lor (Z.shiftl a 4) b :: bytes, err)
    end.
Proof. reflexivity. Qed.

(** X1. The hex text that [main] prints decodes back to the bytes it was
    made from, without error. *)
Theorem hex_round_trip (bs : list Z) :
  Forall is_byte bs ->
  hex.DecodeString (hex.EncodeToString bs) = (bs, None).
Proof.
  unfold hex.EncodeToString.
  induction 1 as [|v rest Hv _ IH]; [reflexivity|].
  pose proof (byte_trip_all v Hv) as Ht. unfold byte_trip in Ht.
  rewrite !andb_true_iff in Ht. destruct Ht as [[H1 H2] H3].
  apply opt_eqb_eq in H1. apply opt_eqb_eq in H2. apply Z.eqb_eq in H3.
  rewrite Encode_cons, DecodeString_pair, H1, H2, IH. cbn zeta. now rewrite H3.
Qed.

Lemma hex_round_trip_witness :
  hex.DecodeString (hex.EncodeToString [0xf8; 0x07; 0xe8; 0x01])
  = ([0xf8; 0x07; 0xe8; 0x01], None).
Proof.
  apply (hex_round_trip [0xf8; 0x07; 0xe8; 0x01]).
  repeat constructor; unfold is_byte; lia.
Defined.

Lemma Encode_length (a : list Z) :
  String.length (hex.Encode a) = (2 * List.length a)%nat.
Proof.
  induction a as [|v a IH]; [reflexivity|].
  rewrite Encode_cons. cbn [String.length List.length]. lia.
Qed.

Lemma odd_double (n : nat) : Nat.odd (2 * n) = false.
Proof. rewrite Nat.odd_mul. reflexivity. Qed.

Lemma BytesToAddress_id (a : list Z) :
  List.length a = common.AddressLength -> common.BytesToAddress a = a.
Proof.
  intros H. unfold common.BytesToAddress. cbv zeta.
  rewrite H, Nat.ltb_irrefl, H, Nat.sub_diag. reflexivity.
Qed.

Lemma HexToAddress_hex (a : common.Address) :
  is_address a -> common.HexToAddress (common.hex a) = a.
Proof.
  intros [Hlen Hbytes].
  unfold common.HexToAddress, common.FromHex, common.hex, common.Hex2Bytes.
  cbn [common.has0xPrefix drop].
  replace ((byte_of "0" =? 48) && ((byte_of "x" =? 120) || (byte_of "x" =? 88)))
    with true by reflexivity.
  rewrite Encode_length, odd_double.
  pose proof (hex_round_trip a Hbytes) as Hrt. unfold hex.EncodeToString in Hrt.
  rewrite Hrt. cbn [fst]. now apply BytesToAddress_id.
Qed.

(** X2. The text of an address reads back as the address: [HexToAddress]
    undoes [Hex], whatever case the checksum gave the letters. *)
Theorem HexToAddress_Hex (a : common.Address) :
  is_address a -> common.HexToAddress (common.Hex a) = a.
Proof.
  intros Ha. rewrite <- HexToAddress_lower, Hex_lower.
  now apply HexToAddress_hex.
Qed.

Lemma HexToAddress_Hex_witness :
  common.HexToAddress (common.Hex (common.HexToAddress addrA1))
  = common.HexToAddress addrA1.
Proof.
  apply (HexToAddress_Hex (common.HexToAddress addrA1)).
  apply HexToAddress_is_address.
Defined.

Lemma pair_trip_all (c d : ascii) (a b : Z) :
  hex.fromHexChar c = Some a -> hex.fromHexChar d = Some b ->
  hex.digit (Z.shiftr (Z.lor (Z.shiftl a 4) b) 4) = lower_char c
  /\ hex.digit (Z.land (Z.lor (Z.shiftl a 4) b) 15) = lower_char d.
Proof.
  intros Hc Hd.
  assert (H : pair_trip (byte_of c) (byte_of d) = true).
  { apply (all_bytes2_spec pair_trip);
      [vm_compute; reflexivity | apply byte_of_range | apply byte_of_range]. }
  unfold pair_trip in H. rewrite !char_of_byte_of, Hc, Hd in H.
  apply andb_true_iff in H. destruct H as [H1 H2].
  split; now apply Ascii.eqb_eq.
Qed.

Lemma hexdigitb_Some (c : ascii) :
  hexdigitb c = true -> exists a, hex.fromHexChar c = Some a.
Proof.
  unfold hexdigitb. destruct (hex.fromHexChar c) as [a|]; [|discriminate].
  intros _. now exists a.
Qed.

(** Decoding a text of hex digit pairs: no error, one byte per pair, and the
    bytes encode back to the text in lower case. *)
Lemma Decode_hexstring (d : string) :
  hexstring d = true -> Nat.odd (String.length d) = false ->
  snd (hex.DecodeString d) = None
  /\ (2 * List.length (fst (hex.DecodeString d)) = String.length d)%nat
  /\ hex.Encode (fst (hex.DecodeString d)) = lower d.
Proof.
  induction d as [|c|c e d IH] using string_pair_ind; intros Hh Hodd.
  - repeat split.
  - discriminate.
  - cbn [hexstring] in Hh. rewrite !andb_true_iff in Hh.
    destruct Hh as (Hc & He & Hd).
    destruct (hexdigitb_Some c Hc) as [a Ha].
    destruct (hexdigitb_Some e He) as [b Hb].
    destruct (pair_trip_all c e a b Ha Hb) as [P1 P2].
    assert (Hodd' : Nat.odd (String.length d) = false) by exact Hodd.
    destruct (IH Hd Hodd') as (I1 & I2 & I3).
    rewrite DecodeString_pair, Ha, Hb.
    destruct (hex.DecodeString d) as [bytes err]. cbn [fst snd] in *.
    repeat split.
    + exact I1.
    + cbn [List.length String.length]. lia.
    + rewrite Encode_cons, P1, P2, I3. reflexivity.
Qed.

Lemma Decode_app (p d : string) :
  hexstring p = true -> Nat.odd (String.length p) = false ->
  fst (hex.DecodeString (p ++ d))
  = fst (hex.DecodeString p) ++ fst (hex.DecodeString d).
Proof.
  induction p as [|c|c e p IH] using string_pair_ind; intros Hh Hodd.
  - reflexivity.
  - discriminate.
  - cbn [hexstring] in Hh. rewrite !andb_true_iff in Hh.
    destruct Hh as (Hc & He & Hp).
    destruct (hexdigitb_Some c Hc) as [a Ha].
    destruct (hexdigitb_Some e He) as [b Hb].
    assert (Hodd' : Nat.odd (String.length p) = false) by exact Hodd.
    specialize (IH Hp Hodd').
    change ((String c (String e p) ++ d)%string)
      with (String c (String e (p ++ d)%string)).
    rewrite !DecodeString_pair, Ha, Hb.
    destruct (hex.DecodeString (p ++ d)) as [b1 e1].
    destruct (hex.DecodeString p) as [b2 e2]. cbn [fst] in *.
    now rewrite IH.
Qed.

Lemma hexdigit_not_x (c : ascii) :
  hexdigitb c = true -> ((byte_of c =? 120) || (byte_of c =? 88)) = false.
Proof.
  intros H.
  assert (E : (if hexdigitb c
               then negb ((byte_of c =? 120) || (byte_of c =? 88))
               else true) = true).
  { revert c H. intros c _. revert c. apply all_chars_spec.
    vm_compute. reflexivity. }
  rewrite H in E. now apply negb_true_iff in E.
Qed.

Lemma hexstring_no_prefix (s : string) :
  hexstring s = true -> common.has0xPrefix s = false.
Proof.
  destruct s as [|c0 [|c1 r]]; [reflexivity | reflexivity |].
  cbn [hexstring common.has0xPrefix]. rewrite !andb_true_iff.
  intros (_ & H1 & _). rewrite (hexdigit_not_x c1 H1). apply andb_false_r.
Qed.

Lemma BytesToAddress_crop (x y : list Z) :
  List.length y = common.AddressLength -> common.BytesToAddress (x ++ y) = y.
Proof.
  intros Hy. unfold common.BytesToAddress. cbv zeta.
  rewrite length_app, Hy. unfold common.AddressLength in *.
  destruct x as [|x0 x].
  - cbn [List.length app Nat.add]. rewrite Nat.ltb_irrefl, Hy, Nat.sub_diag.
    reflexivity.
  - replace (20 <? List.length (x0 :: x) + 20)%nat with true
      by (symmetry; apply Nat.ltb_lt; cbn [List.length]; lia).
    replace (List.length (x0 :: x) + 20 - 20)%nat with (List.length (x0 :: x))
      by lia.
    rewrite skipn_app, skipn_all, Nat.sub_diag. cbn [skipn app].
    rewrite Hy, Nat.sub_diag. reflexivity.
Qed.

(** X3. For a recipient written in full, "0x" and forty hex digits, the
    address it is parsed to prints as the same text in lower case; so the
    whitelist denies it exactly when no entry equals it, letter case apart. *)
Theorem canonical_recipient (P : Policy) (s : string) (a : Z) :
  canonical s = true ->
  common.hex (common.HexToAddress s) = lower s
  /\ (evaluate P (common.HexToAddress s) a = Deny "recipient not in whitelist"
      <-> forall entry, In entry (Whitelist P) -> lower entry <> lower s).
Proof.
  intros Hc.
  assert (Hhex : common.hex (common.HexToAddress s) = lower s).
  { destruct s as [|c0 [|c1 d]]; try discriminate.
    cbn [canonical] in Hc. rewrite !andb_true_iff in Hc.
    destruct Hc as [[[H0 H1] Hd] Hlen].
    apply Nat.eqb_eq in Hlen.
    assert (Hodd : Nat.odd (String.length d) = false) by (now rewrite Hlen).
    destruct (Decode_hexstring d Hd Hodd) as (_ & Hl & He).
    unfold common.HexToAddress, common.FromHex, common.Hex2Bytes.
    cbn [common.has0xPrefix drop]. rewrite H0, H1. cbn [andb].
    rewrite Hodd, BytesToAddress_id
      by (unfold common.AddressLength; lia).
    unfold common.hex. rewrite He. cbn [lower].
    apply Z.eqb_eq in H0.
    replace (lower_char c0) with "0"%char
      by (unfold lower_char; rewrite H0; reflexivity).
    replace (lower_char c1) with "x"%char; [reflexivity|].
    unfold lower_char. apply orb_true_iff in H1.
    destruct H1 as [H1|H1]; apply Z.eqb_eq in H1; rewrite H1; reflexivity. }
  split; [exact Hhex|].
  unfold evaluate. rewrite checkPolicy_run. cbn [fst policy_obj amount_obj].
  destruct (rangeWhitelist (Whitelist P) (common.HexToAddress s) false) eqn:E;
    cbn [negb].
  - split.
    + destruct (MaxAmountWei P) as [m|]; [|discriminate].
      destruct (big.Cmp a m >? 0); discriminate.
    + intros H. exfalso. apply rangeWhitelist_true in E.
      destruct E as (entry & Hin & Hm). unfold matches in Hm.
      rewrite Hhex in Hm. exact (H entry Hin Hm).
  - split; [|reflexivity]. intros _ entry Hin Hm.
    rewrite rangeWhitelist_false in E. apply (E entry Hin).
    unfold matches. now rewrite Hhex.
Qed.

Lemma canonical_recipient_witness :
  common.hex (common.HexToAddress "0XAAAAAAAAAAAAAAAAAAAAAAAAAAAAAAAAAAAAAAA1")
  = lower "0XAAAAAAAAAAAAAAAAAAAAAAAAAAAAAAAAAAAAAAA1".
Proof.
  apply (canonical_recipient policy1
           "0XAAAAAAAAAAAAAAAAAAAAAAAAAAAAAAAAAAAAAAA1" 1).
  reflexivity.
Defined.

Lemma hexstring_app (p d : string) :
  hexstring p = true -> hexstring d = true -> hexstring (p ++ d) = true.
Proof.
  intros Hp Hd. induction p as [|c p IH]; [exact Hd|].
  change (String c p ++ d)%string with (String c (p ++ d)%string).
  cbn [hexstring] in *. apply andb_true_iff in Hp.
  destruct Hp as [Hc Hp]. now rewrite Hc, IH.
Qed.

Lemma length_append (p d : string) :
  String.length (p ++ d) = (String.length p + String.length d)%nat.
Proof.
  induction p as [|c p IH]; [reflexivity|].
  change (String c p ++ d)%string with (String c (p ++ d)%string).
  cbn [String.length Nat.add]. now rewrite IH.
Qed.

(** X4. A recipient with more than forty hex digits is not refused: the
    digits in front are dropped and the last forty make the address. *)
Theorem HexToAddress_crops (p d : string) :
  hexstring p = true -> Nat.odd (String.length p) = false ->
  hexstring d = true -> String.length d = 40%nat ->
  common.HexToAddress (p ++ d) = common.HexToAddress d.
Proof.
  intros Hp Hodd Hd Hlen.
  assert (Hoddd : Nat.odd (String.length d) = false) by (now rewrite Hlen).
  destruct (Decode_hexstring d Hd Hoddd) as (_ & Hl & _).
  unfold common.HexToAddress, common.FromHex, common.Hex2Bytes.
  rewrite (hexstring_no_prefix _ (hexstring_app p d Hp Hd)).
  rewrite (hexstring_no_prefix d Hd).
  rewrite length_append, Nat.odd_add, Hodd, Hoddd. cbn [xorb].
  rewrite (Decode_app p d Hp Hodd).
  rewrite BytesToAddress_crop, BytesToAddress_id;
    unfold common.AddressLength; try lia. reflexivity.
Qed.

Lemma HexToAddress_crops_witness :
  common.HexToAddress
    ("deadbeef" ++ "aaaaaaaaaaaaaaaaaaaaaaaaaaaaaaaaaaaaaaa1")%string
  = common.HexToAddress "aaaaaaaaaaaaaaaaaaaaaaaaaaaaaaaaaaaaaaa1".
Proof.
  apply (HexToAddress_crops "deadbeef" "aaaaaaaaaaaaaaaaaaaaaaaaaaaaaaaaaaaaaaa1");
    reflexivity.
Defined.

Lemma not_hexdigit_not_0 (c : ascii) :
  hexdigitb c = false -> (byte_of c =? 48) = false.
Proof.
  intros H.
  assert (E : (if hexdigitb c then true else negb (byte_of c =? 48)) = true).
  { revert c H. intros c _. revert c. apply all_chars_spec.
    vm_compute. reflexivity. }
  rewrite H in E. now apply negb_true_iff in E.
Qed.

(** X5. A recipient whose first character is no hex digit is not refused
    either: it is taken for the zero address. *)
Theorem HexToAddress_junk (c : ascii) (rest : string) :
  hexdigitb c = false ->
  common.HexToAddress (String c rest) = zeroAddress.
Proof.
  intros Hc.
  assert (Hnone : hex.fromHexChar c = None).
  { unfold hexdigitb in Hc. now destruct (hex.fromHexChar c). }
  unfold common.HexToAddress, common.FromHex, common.Hex2Bytes.
  replace (common.has0xPrefix (String c rest)) with false.
  2: { destruct rest as [|c1 r]; [reflexivity|].
       cbn [common.has0xPrefix]. now rewrite (not_hexdigit_not_0 c Hc). }
  destruct (Nat.odd (String.length (String c rest))) eqn:Hodd.
  - rewrite DecodeString_pair, Hnone.
    now destruct (hex.fromHexChar "0").
  - destruct rest as [|c1 r]; [discriminate|].
    rewrite DecodeString_pair, Hnone. reflexivity.
Qed.

Lemma HexToAddress_junk_witness :
  common.HexToAddress "not an address" = zeroAddress.
Proof.
  apply (HexToAddress_junk "n" "ot an address"). reflexivity.
Defined.

(** ** More on the evaluator *)

(** The four results of [checkPolicy] and when each is given. *)
Lemma evaluate_cases (P : Policy) (r : common.Address) (a : Z) :
  ((forall entry, In entry (Whitelist P) -> ~ matches entry r)
   /\ evaluate P r a = Deny "recipient not in whitelist")
  \/ ((exists entry, In entry (Whitelist P) /\ matches entry r)
      /\ ((MaxAmountWei P = None
           /\ evaluate P r a
              = Panicked "invalid memory address or nil pointer dereference")
          \/ (exists m, MaxAmountWei P = Some m /\ a > m
                        /\ evaluate P r a = Deny "amount exceeds max policy limit")
          \/ (exists m, MaxAmountWei P = Some m /\ a <= m
                        /\ evaluate P r a = Allow))).
Proof.
  unfold evaluate. rewrite checkPolicy_run. cbn [fst policy_obj amount_obj].
  destruct (rangeWhitelist (Whitelist P) r false) eqn:E; cbn [negb].
  - right. apply rangeWhitelist_true in E. split; [exact E|].
    destruct (MaxAmountWei P) as [m|]; [|left; auto].
    right. rewrite Cmp_gt. destruct (a >? m) eqn:G.
    + left. exists m. rewrite Z.gtb_ltb in G. apply Z.ltb_lt in G.
      repeat split; auto; lia.
    + right. exists m. rewrite Z.gtb_ltb in G. apply Z.ltb_ge in G.
      repeat split; auto; lia.
  - left. rewrite rangeWhitelist_false in E. split; [exact E | reflexivity].
Qed.

(** X6. The whitelist is used as a set: neither the order of its entries nor
    their repetition changes a decision. *)
Theorem whitelist_as_set (m : option Z) (wl1 wl2 : list string)
    (r : common.Address) (a : Z) :
  (forall entry, In entry wl1 <-> In entry wl2) ->
  evaluate {| MaxAmountWei := m; Whitelist := wl1 |} r a
  = evaluate {| MaxAmountWei := m; Whitelist := wl2 |} r a.
Proof.
  intros Hset. unfold evaluate. rewrite !checkPolicy_run.
  cbn [fst policy_obj amount_obj MaxAmountWei Whitelist].
  replace (rangeWhitelist wl1 r false) with (rangeWhitelist wl2 r false);
    [reflexivity|].
  destruct (rangeWhitelist wl1 r false) eqn:E1.
  - apply rangeWhitelist_true. apply rangeWhitelist_true in E1.
    destruct E1 as (e & Hin & Hm). exists e. split; [now apply Hset | exact Hm].
  - apply rangeWhitelist_false. rewrite rangeWhitelist_false in E1.
    intros e Hin. apply E1. now apply Hset.
Qed.

Lemma whitelist_as_set_witness :
  evaluate {| MaxAmountWei := Some 1000; Whitelist := [addrB2; addrA1; addrB2] |}
           (common.HexToAddress addrA1) 5
  = evaluate {| MaxAmountWei := Some 1000; Whitelist := [addrA1; addrB2] |}
             (common.HexToAddress addrA1) 5.
Proof.
  apply (whitelist_as_set (Some 1000) [addrB2; addrA1; addrB2] [addrA1; addrB2]).
  intros entry. cbn [In]. tauto.
Defined.

(** X7. [checkPolicy] crashes on a nil pointer exactly when the recipient is
    on the whitelist and the policy has no maximum; and it allows exactly
    when the recipient is on the whitelist and the amount is at most the
    maximum the policy has. *)
Theorem checkPolicy_panic_and_allow (P : Policy) (r : common.Address) (a : Z) :
  ((exists msg, evaluate P r a = Panicked msg)
   <-> (exists entry, In entry (Whitelist P) /\ matches entry r)
       /\ MaxAmountWei P = None)
  /\ (evaluate P r a = Allow
      <-> (exists entry, In entry (Whitelist P) /\ matches entry r)
          /\ exists m, MaxAmountWei P = Some m /\ a <= m).
Proof.
  destruct (evaluate_cases P r a)
    as [[Hno E]|[Hyes [[Hm E]|[(m & Hm & Ha & E)|(m & Hm & Ha & E)]]]];
    rewrite E; split; split;
    try (intros [msg H]; discriminate);
    try (intros H; discriminate).
  - intros [(e & Hin & Hmt) _]. exfalso. exact (Hno e Hin Hmt).
  - intros [(e & Hin & Hmt) _]. exfalso. exact (Hno e Hin Hmt).
  - intros _. now split.
  - intros _. now eexists.
  - intros [_ (m & Hm' & _)]. congruence.
  - intros [_ Hn]. congruence.
  - intros [_ (m' & Hm' & Ha')]. exfalso.
    assert (m' = m) by congruence. lia.
  - intros [_ Hn]. congruence.
  - intros _. split; [exact Hyes|]. now exists m.
  - intros _. reflexivity.
Qed.

(** X8. What is allowed stays allowed for every smaller amount, also for a
    negative one. *)
Theorem checkPolicy_monotone (P : Policy) (r : common.Address) (a a' : Z) :
  evaluate P r a = Allow -> a' <= a -> evaluate P r a' = Allow.
Proof.
  intros HA Hle.
  destruct (evaluate_cases P r a)
    as [[_ E]|[Hyes [[_ E]|[(m & _ & _ & E)|(m & Hm & Ha & _)]]]];
    try (rewrite E in HA; discriminate).
  destruct (evaluate_cases P r a')
    as [[Hno _]|[_ [[Hn _]|[(m' & Hm' & Ha' & _)|(m' & _ & _ & E')]]]].
  - exfalso. destruct Hyes as (e & Hin & Hmt). exact (Hno e Hin Hmt).
  - congruence.
  - exfalso. assert (m' = m) by congruence. lia.
  - exact E'.
Qed.

Lemma checkPolicy_monotone_witness :
  evaluate policy1 (common.HexToAddress addrA1) (-3) = Allow.
Proof.
  apply (checkPolicy_monotone policy1 (common.HexToAddress addrA1) 1000 (-3)).
  - vm_compute. reflexivity.
  - lia.
Defined.

(** ** More on the pipeline *)

Section PipelineFurther.

Context {world : Collaborators}.

(** What a run that calls the signer, or prints, has gone through. *)
Lemma sign_inversion (f : Flags) tx signer :
  In (CallSignTx tx signer) (trace (main f)) ->
  exists key policy amount,
    loadPrivateKey (privKeyHex f) = inr key
    /\ loadPolicy (policyFile f) = inr policy
    /\ big.SetString (amountWeiStr f) = Some amount
    /\ evaluate policy (common.HexToAddress (toAddr f)) amount = Allow
    /\ tx = types.NewTransaction (nonce f) (common.HexToAddress (toAddr f))
              amount 21000 1000000000 []
    /\ signer = types.LatestSignerForChainID (chainID f).
Proof.
  intros Hin.
  destruct (main_stage f) as [ | | | | ? ? ? ? ? ? ? ? ? ?
                             | key policy amount t e Hkey Hpol Hamt Hev tx0 signer0 Hrest];
    cbn [In app] in Hin; try (intuition discriminate).
  exists key, policy, amount.
  destruct Hin as [Hin|[Hin|[Hin|[Hin|Hin]]]]; try discriminate.
  - injection Hin as <- <-. repeat split; assumption.
  - exfalso. destruct (SignTx tx0 signer0 key) as [err|stx].
    + destruct Hrest as [-> _]. destruct Hin.
    + destruct (MarshalBinary stx); destruct Hrest as [-> _];
        cbn in Hin; intuition discriminate.
Qed.

(** X9. Whatever is handed to the signer is within the policy that was
    loaded: the policy has a maximum, the value of the transaction is at most
    that maximum, and its recipient is matched by an entry of the whitelist. *)
Theorem signed_within_policy (f : Flags) tx signer :
  In (CallSignTx tx signer) (trace (main f)) ->
  exists policy m entry,
    loadPolicy (policyFile f) = inr policy
    /\ MaxAmountWei policy = Some m
    /\ types.Value tx <= m
    /\ types.To tx = Some (common.HexToAddress (toAddr f))
    /\ In entry (Whitelist policy)
    /\ matches entry (common.HexToAddress (toAddr f)).
Proof.
  intros Hin.
  destruct (sign_inversion f tx signer Hin)
    as (key & policy & amount & _ & Hpol & _ & Hev & -> & _).
  destruct (evaluate_cases policy (common.HexToAddress (toAddr f)) amount)
    as [[_ E]|[Hyes [[_ E]|[(m & _ & _ & E)|(m & Hm & Ha & _)]]]];
    try (rewrite E in Hev; discriminate).
  destruct Hyes as (entry & Hent & Hmt).
  exists policy, m, entry. cbn. auto 6.
Qed.

(** X10. Nothing is printed unless the run succeeds, and a run that succeeds
    prints once, as its last step: the line is "RawTxHex: " and the hex of
    the bytes that [MarshalBinary] gave for the transaction that [SignTx]
    signed with the loaded key for the chain of the flag. *)
Theorem output_iff_success (f : Flags) :
  (exit (main f) = Exit0 <-> exists line, In (Println line) (trace (main f)))
  /\ (forall line,
         In (Println line) (trace (main f)) ->
         exists key amount signedTx raw before,
           loadPrivateKey (privKeyHex f) = inr key
           /\ big.SetString (amountWeiStr f) = Some amount
           /\ SignTx (types.NewTransaction (nonce f)
                        (common.HexToAddress (toAddr f)) amount
                        21000 1000000000 [])
                     (types.LatestSignerForChainID (chainID f)) key
              = inr signedTx
           /\ MarshalBinary signedTx = inr raw
           /\ line = ("RawTxHex: " ++ hex.EncodeToString raw)%string
           /\ trace (main f) = before ++ [Println line]
           /\ forall l, ~ In (Println l) before).
Proof.
  destruct (main_stage f) as [ | | |
                             | key policy amount d e Hkey Hpol Hamt Hev He
                             | key policy amount t e Hkey Hpol Hamt Hev tx0 signer0 Hrest].
  1-4: split; [split; [discriminate | intros [l Hin]; cbn in Hin;
                          intuition discriminate]
              | intros l Hin; cbn in Hin; intuition discriminate].
  - split.
    + split.
      * destruct d as [[err|]|msg]; cbn in He; try tauto; rewrite He;
          discriminate.
      * intros [l Hin]. cbn in Hin. intuition discriminate.
    + intros l Hin. cbn in Hin. intuition discriminate.
  - destruct (SignTx tx0 signer0 key) as [err|stx] eqn:Hsign.
    { destruct Hrest as [-> ->]. split.
      - split; [discriminate|]. intros [l Hin]. cbn in Hin.
        intuition discriminate.
      - intros l Hin. cbn in Hin. intuition discriminate. }
    destruct (MarshalBinary stx) as [err|raw] eqn:Hm; destruct Hrest as [-> ->].
    { split.
      - split; [discriminate|]. intros [l Hin]. cbn in Hin.
        intuition discriminate.
      - intros l Hin. cbn in Hin. intuition discriminate. }
    split.
    + split; [|reflexivity]. intros _. eexists. cbn [In app].
      do 5 right. left. reflexivity.
    + intros l Hin. cbn [In app] in Hin.
      destruct Hin as [Hin|[Hin|[Hin|[Hin|[Hin|[Hin|[]]]]]]]; try discriminate.
      injection Hin as <-.
      exists key, amount, stx, raw.
      exists [CallHexToECDSA (privKeyHex f); CallReadFile (policyFile f);
              CallCheckPolicy policy (common.HexToAddress (toAddr f))
                amount Allow;
              CallSignTx tx0 signer0; CallMarshalBinary].
      repeat split; try assumption; try reflexivity.
      intros l Hl. cbn in Hl. intuition discriminate.
Qed.

(** X11. Failures are met in the order flags, key, policy file: with a flag
    missing nothing at all is called; with a key that does not load the
    policy file is never read; with a policy that does not load the run ends
    there, whatever the amount and the recipient are. *)
Theorem early_exits (f : Flags) :
  (privKeyHex f = "" \/ toAddr f = "" ->
     trace (main f) = []
     /\ exit (main f) = Fatal "key and to are required" None)
  /\ (forall err,
         privKeyHex f <> "" -> toAddr f <> "" ->
         loadPrivateKey (privKeyHex f) = inl err ->
         trace (main f) = [CallHexToECDSA (privKeyHex f)]
         /\ exit (main f) = Fatal "failed to load private key: " (Some err))
  /\ (forall key err,
         privKeyHex f <> "" -> toAddr f <> "" ->
         loadPrivateKey (privKeyHex f) = inr key ->
         loadPolicy (policyFile f) = inl err ->
         trace (main f)
         = [CallHexToECDSA (privKeyHex f); CallReadFile (policyFile f)]
         /\ exit (main f) = Fatal "failed to load policy: " (Some err)).
Proof.
  split; [|split].
  - intros Hempty.
    assert (Hreq : ((privKeyHex f =? "") || (toAddr f =? ""))%string = true).
    { apply orb_true_iff. rewrite !String.eqb_eq. exact Hempty. }
    unfold main. rewrite Hreq. split; reflexivity.
  - intros err Hk Ht Hkey.
    assert (Hreq : ((privKeyHex f =? "") || (toAddr f =? ""))%string = false)
      by (apply flags_present; auto).
    unfold main. rewrite Hreq, Hkey. split; reflexivity.
  - intros key err Hk Ht Hkey Hpol.
    assert (Hreq : ((privKeyHex f =? "") || (toAddr f =? ""))%string = false)
      by (apply flags_present; auto).
    unfold main. rewrite Hreq, Hkey, Hpol. split; reflexivity.
Qed.


End PipelineFurther.

Lemma signed_within_policy_witness :
  exists policy m entry,
    @loadPolicy (demoWorld demoPolicy) "policy.json" = inr policy
    /\ MaxAmountWei policy = Some m
    /\ types.Value (types.NewTransaction 7 (common.HexToAddress addrA1) 1000
                      21000 1000000000 []) <= m
    /\ types.To (types.NewTransaction 7 (common.HexToAddress addrA1) 1000
                   21000 1000000000 [])
       = Some (common.HexToAddress addrA1)
    /\ In entry (Whitelist policy)
    /\ matches entry (common.HexToAddress addrA1).
Proof.
  apply (@signed_within_policy (demoWorld demoPolicy) (demoFlags addrA1 "1000")
           (types.NewTransaction 7 (common.HexToAddress addrA1) 1000
              21000 1000000000 [])
           (types.LatestSignerForChainID 1)).
  vm_compute. tauto.
Defined.


(** ** More on the policy file *)

Lemma storeMembers_app (ms1 ms2 : list (string * json.value)) (d : decodeState) :
  storeMembers (ms1 ++ ms2) d
  = match storeMembers ms1 d with
    | inl e => inl e
    | inr d1 => storeMembers ms2 d1
    end.
Proof.
  revert d. induction ms1 as [|[key v] ms1 IH]; intros d; [reflexivity|].
  cbn [app storeMembers]. destruct (storeMember d key v); [reflexivity|].
  apply IH.
Qed.

Lemma EqualFold_max_key (key : string) :
  strings.EqualFold key "max_amount_wei" = true <-> lower key = "max_amount_wei".
Proof.
  rewrite (EqualFold_plain key "max_amount_wei"); [|reflexivity].
  reflexivity.
Qed.

(** X13. The keys of the policy object: the maximum is read from any key
    that is "max_amount_wei" up to letter case, and a member whose key names
    neither field is ignored, so that a misspelt key leaves its field
    unset without an error. *)
Theorem policy_keys (ms1 ms2 : list (string * json.value))
    (key : string) (v : json.value) :
  (lower key = "max_amount_wei" ->
     decodePolicy (json.Object (ms1 ++ (key, v) :: ms2))
     = decodePolicy (json.Object (ms1 ++ ("max_amount_wei", v) :: ms2)))
  /\ (strings.EqualFold key "max_amount_wei" = false ->
      strings.EqualFold key "whitelist" = false ->
      decodePolicy (json.Object (ms1 ++ (key, v) :: ms2))
      = decodePolicy (json.Object (ms1 ++ ms2))).
Proof.
  split.
  - intros Hkey. apply EqualFold_max_key in Hkey.
    cbn [decodePolicy]. rewrite !storeMembers_app.
    destruct (storeMembers ms1 _) as [e|d1]; [reflexivity|].
    cbn [storeMembers]. unfold storeMember. rewrite Hkey.
    replace (strings.EqualFold "max_amount_wei" "max_amount_wei") with true
      by reflexivity.
    reflexivity.
  - intros H1 H2. cbn [decodePolicy]. rewrite !storeMembers_app.
    destruct (storeMembers ms1 _) as [e|d1]; [reflexivity|].
    cbn [storeMembers]. unfold storeMember. rewrite H1, H2. reflexivity.
Qed.

Lemma policy_keys_witness :
  decodePolicy (json.Object [("Max_Amount_WEI", json.Number "5")])
  = decodePolicy (json.Object [("max_amount_wei", json.Number "5")])
  /\ decodePolicy (json.Object [("max_amount", json.Number "5");
                              ("whitelist", json.Array [])])
     = decodePolicy (json.Object [("whitelist", json.Array [])]).
Proof.
  split.
  - apply (policy_keys [] [] "Max_Amount_WEI" (json.Number "5")). reflexivity.
  - apply (policy_keys [] [("whitelist", json.Array [])] "max_amount"
             (json.Number "5")); reflexivity.
Defined.

Lemma storeMembers_no_whitelist (ms : list (string * json.value)) :
  forall d d',
    (forall key v, In (key, v) ms -> strings.EqualFold key "whitelist" = false) ->
    storeMembers ms d = inr d' ->
    Whitelist (target d') = Whitelist (target d).
Proof.
  induction ms as [|[key v] ms IH]; intros d d' Hno Hs.
  - cbn in Hs. now injection Hs as <-.
  - assert (Hkey : strings.EqualFold key "whitelist" = false)
      by (apply (Hno key v); now left).
    assert (Hrest : forall k w, In (k, w) ms ->
                                strings.EqualFold k "whitelist" = false)
      by (intros k w Hin; apply (Hno k w); now right).
    cbn [storeMembers] in Hs.
    destruct (storeMember d key v) as [e|d1] eqn:E; [discriminate|].
    rewrite (IH d1 d' Hrest Hs).
    unfold storeMember in E. rewrite Hkey in E.
    destruct (strings.EqualFold key "max_amount_wei").
    + destruct v as [|b|lit|s|elems|members]; cbn in E;
        try discriminate; try (now injection E as <-).
      destruct (big.SetString lit); [|discriminate]. now injection E as <-.
    + now injection E as <-.
Qed.

(** X14. A policy object without a whitelist member loads, when it loads,
    with an empty whitelist, and then denies every recipient and amount. *)
Theorem policy_without_whitelist (ms : list (string * json.value)) (P : Policy) :
  (forall key v, In (key, v) ms -> strings.EqualFold key "whitelist" = false) ->
  decodePolicy (json.Object ms) = inr P ->
  Whitelist P = []
  /\ forall r a, evaluate P r a = Deny "recipient not in whitelist".
Proof.
  intros Hno Hdec. cbn [decodePolicy] in Hdec.
  destruct (storeMembers ms {| target := zeroPolicy; savedError := None |})
    as [e|d'] eqn:Hs; [discriminate|].
  destruct (savedError d'); [discriminate|]. injection Hdec as <-.
  pose proof (storeMembers_no_whitelist ms _ d' Hno Hs) as Hw. cbn in Hw.
  split; [exact Hw|]. intros r a.
  unfold evaluate. rewrite checkPolicy_run. cbn [fst policy_obj].
  rewrite Hw. reflexivity.
Qed.

Lemma policy_without_whitelist_witness :
  Whitelist {| MaxAmountWei := Some 1000; Whitelist := [] |} = []
  /\ forall r a,
       evaluate {| MaxAmountWei := Some 1000; Whitelist := [] |} r a
       = Deny "recipient not in whitelist".
Proof.
  apply (policy_without_whitelist [("max_amount_wei", json.Number "1000")]).
  - intros key v [H|[]]. injection H as <- _. reflexivity.
  - reflexivity.
Defined.

(** X15. When a key is repeated, the last one counts: the maximum of a
    policy that loads is the integer of the last member of the object, when
    that member is a maximum. *)
Theorem policy_last_maximum (ms : list (string * json.value))
    (key lit : string) (z : Z) (P : Policy) :
  strings.EqualFold key "max_amount_wei" = true ->
  big.SetString lit = Some z ->
  decodePolicy (json.Object (ms ++ [(key, json.Number lit)])) = inr P ->
  MaxAmountWei P = Some z.
Proof.
  intros Hkey Hz. cbn [decodePolicy]. rewrite storeMembers_app.
  destruct (storeMembers ms _) as [e|d1]; [discriminate|].
  cbn [storeMembers]. unfold storeMember. rewrite Hkey.
  cbn [UnmarshalJSON_Int]. rewrite Hz. cbn [savedError].
  destruct (savedError d1); [discriminate|]. intros H. now injection H as <-.
Qed.

Lemma policy_last_maximum_witness :
  MaxAmountWei {| MaxAmountWei := Some 999999; Whitelist := [] |} = Some 999999.
Proof.
  apply (policy_last_maximum [("max_amount_wei", json.Number "10")]
           "MAX_AMOUNT_WEI" "999999" 999999).
  - reflexivity.
  - reflexivity.
  - reflexivity.
Defined.

(** ** The amount string *)

Lemma scanDigits_spec (s : string) :
  forall acc n,
    big.scanDigits acc n s
    = if decimalb s then Some (decimal acc s, (n + String.length s)%nat)
      else None.
Proof.
  induction s as [|c s IH]; intros acc n.
  - cbn. now rewrite Nat.add_0_r.
  - cbn [big.scanDigits decimalb decimal String.length]. unfold big.digitVal.
    destruct ((48 <=? byte_of c) && (byte_of c <=? 57)); cbn [andb];
      [|reflexivity].
    rewrite IH. destruct (decimalb s); [|reflexivity].
    f_equal. f_equal. lia.
Qed.

Lemma SetString_cons (c : ascii) (r : string) :
  big.SetString (String c r)
  = if Ascii.eqb c "-" then
      match big.scanDigits 0 0 r with
      | Some (abs, S _) => Some (- abs)
      | _ => None
      end
    else if Ascii.eqb c "+" then
      match big.scanDigits 0 0 r with
      | Some (abs, S _) => Some abs
      | _ => None
      end
    else
      match big.scanDigits 0 0 (String c r) with
      | Some (abs, S _) => Some abs
      | _ => None
      end.
Proof.
  destruct c as [[] [] [] [] [] [] [] []]; reflexivity.
Qed.

Lemma sign_not_decimal (c : ascii) (r : string) :
  decimalb (String c r) = true ->
  Ascii.eqb c "-" = false /\ Ascii.eqb c "+" = false.
Proof.
  cbn [decimalb]. rewrite !andb_true_iff, !Z.leb_le. intros [[H1 H2] _].
  split; apply Ascii.eqb_neq; intros ->; vm_compute in H1; now apply H1.
Qed.

(** X16. The amounts that [main] accepts: an optional "+" or "-" and then
    decimal digits, at least one and nothing else (no space, no separator, no
    fraction, no exponent); the amount is the number the digits write,
    negated after a "-". *)
Theorem SetString_decimal (s : string) (z : Z) :
  big.SetString s = Some z <->
  exists d,
    d <> "" /\ decimalb d = true
    /\ ((s = d /\ z = decimal 0 d)
        \/ (s = String "+" d /\ z = decimal 0 d)
        \/ (s = String "-" d /\ z = - decimal 0 d)).
Proof.
  assert (Hscan : forall d,
             match big.scanDigits 0 0 d with
             | Some (abs, S _) => Some abs
             | _ => None
             end
             = if decimalb d
               then match d with
                    | EmptyString => None
                    | _ => Some (decimal 0 d)
                    end
               else None).
  { intros d. rewrite scanDigits_spec. destruct (decimalb d); [|reflexivity].
    destruct d; reflexivity. }
  assert (Hscan' : forall d,
             match big.scanDigits 0 0 d with
             | Some (abs, S _) => Some (- abs)
             | _ => None
             end
             = if decimalb d
               then match d with
                    | EmptyString => None
                    | _ => Some (- decimal 0 d)
                    end
               else None).
  { intros d. rewrite scanDigits_spec. destruct (decimalb d); [|reflexivity].
    destruct d; reflexivity. }
  split.
  - destruct s as [|c r]; [discriminate|].
    rewrite SetString_cons.
    destruct (Ascii.eqb c "-") eqn:Em.
    { apply Ascii.eqb_eq in Em. subst c. rewrite Hscan'.
      destruct (decimalb r) eqn:Hd; [|discriminate].
      destruct r as [|c' r']; [discriminate|].
      intros H. injection H as <-. exists (String c' r').
      split; [discriminate|]. split; [exact Hd|]. right. right. now split. }
    destruct (Ascii.eqb c "+") eqn:Ep.
    { apply Ascii.eqb_eq in Ep. subst c. rewrite Hscan.
      destruct (decimalb r) eqn:Hd; [|discriminate].
      destruct r as [|c' r']; [discriminate|].
      intros H. injection H as <-. exists (String c' r').
      split; [discriminate|]. split; [exact Hd|]. right. left. now split. }
    rewrite Hscan.
    destruct (decimalb (String c r)) eqn:Hd; [|discriminate].
    intros H. injection H as <-. exists (String c r).
    split; [discriminate|]. split; [exact Hd|]. left. now split.
  - intros (d & Hne & Hd & [[-> ->]|[[-> ->]|[-> ->]]]).
    + destruct d as [|c r]; [congruence|].
      destruct (sign_not_decimal c r Hd) as [Em Ep].
      now rewrite SetString_cons, Em, Ep, Hscan, Hd.
    + rewrite SetString_cons. cbn [Ascii.eqb Bool.eqb]. rewrite Hscan, Hd.
      destruct d; [congruence | reflexivity].
    + rewrite SetString_cons. cbn [Ascii.eqb Bool.eqb]. rewrite Hscan', Hd.
      destruct d; [congruence | reflexivity].
Qed.

(** ** Short recipients and the prefix of the key *)

Lemma repeat_snoc (n : nat) : repeat 0 n ++ [0] = 0 :: repeat 0 n.
Proof. induction n as [|n IH]; [reflexivity|]. cbn. now rewrite IH. Qed.

(** X17. A recipient with fewer than forty hex digits is not refused: it
    names the address that the same digits name after zeros are written in
    front of them. *)
Theorem HexToAddress_pads (d : string) :
  hexstring d = true -> Nat.odd (String.length d) = false ->
  (String.length d < 40)%nat ->
  common.HexToAddress (String "0" (String "0" d)) = common.HexToAddress d.
Proof.
  intros Hd Hodd Hlen.
  destruct (Decode_hexstring d Hd Hodd) as (_ & Hl & _).
  assert (Hd2 : hexstring (String "0" (String "0" d)) = true)
    by (cbn [hexstring]; now rewrite Hd).
  unfold common.HexToAddress, common.FromHex, common.Hex2Bytes.
  rewrite (hexstring_no_prefix _ Hd2), (hexstring_no_prefix d Hd).
  cbn [String.length]. change (Nat.odd (S (S (String.length d))))
    with (Nat.odd (String.length d)).
  rewrite Hodd, DecodeString_pair.
  replace (hex.fromHexChar "0") with (Some 0) by reflexivity.
  destruct (hex.DecodeString d) as [bytes err]. cbn [fst] in *.
  change (Z.lor (Z.shiftl 0 4) 0) with 0.
  unfold common.BytesToAddress, common.AddressLength. cbv zeta.
  cbn [List.length].
  replace (20 <? S (List.length bytes))%nat with false
    by (symmetry; apply Nat.ltb_ge; lia).
  replace (20 <? List.length bytes)%nat with false
    by (symmetry; apply Nat.ltb_ge; lia).
  replace (20 - List.length bytes)%nat
    with (S (20 - S (List.length bytes)))%nat by lia.
  cbn [repeat]. rewrite <- repeat_snoc, <- app_assoc. reflexivity.
Qed.

Lemma HexToAddress_pads_witness :
  common.HexToAddress "00a1" = common.HexToAddress "a1".
Proof.
  apply (HexToAddress_pads "a1"); [reflexivity | reflexivity | cbn; lia].
Defined.

Section KeyPrefix.

Context {world : Collaborators}.

Lemma loadPrivateKey_prefix (k : string) :
  prefix "0x" k = false ->
  loadPrivateKey (String "0" (String "x" k)) = loadPrivateKey k.
Proof.
  intros H. unfold loadPrivateKey, strings.TrimPrefix. rewrite H.
  replace (prefix "0x" (String "0" (String "x" k))) with true
    by (destruct k; reflexivity).
  reflexivity.
Qed.

(** X18. The key may be given with or without "0x": both runs end alike,
    with the same calls after the loading of the key. *)
Theorem key_prefix_optional (f : Flags) (k : string) :
  k <> "" -> prefix "0x" k = false ->
  exit (main (withKey f (String "0" (String "x" k))))
  = exit (main (withKey f k))
  /\ tl (trace (main (withKey f (String "0" (String "x" k)))))
     = tl (trace (main (withKey f k))).
Proof.
  intros Hne Hpre.
  pose proof (loadPrivateKey_prefix k Hpre) as Hload.
  unfold main. cbn [privKeyHex toAddr amountWeiStr nonce chainID policyFile
                      withKey].
  replace ((String "0" (String "x" k) =? "")%string) with false by reflexivity.
  replace ((k =? "")%string) with false
    by (symmetry; now apply String.eqb_neq).
  cbn [orb].
  destruct (toAddr f =? "")%string; [split; reflexivity|].
  rewrite Hload.
  destruct (loadPrivateKey k) as [err|key]; [split; reflexivity|].
  cbn [bind Monad_Run emit orFatalf ret stop app trace exit fst snd].
  match goal with
  | |- context [let (t', r) := ?rest in (CallHexToECDSA k :: t', r)] =>
      destruct rest as [t' r']
  end.
  split; reflexivity.
Qed.

End KeyPrefix.

Lemma key_prefix_optional_witness :
  exit (@main (demoWorld demoPolicy)
          (withKey (demoFlags addrA1 "1000") demoKey))
  = exit (@main (demoWorld demoPolicy)
            (withKey (demoFlags addrA1 "1000") (drop 2 demoKey))).
Proof.
  apply (@key_prefix_optional (demoWorld demoPolicy) (demoFlags addrA1 "1000")
           (drop 2 demoKey)).
  - discriminate.
  - reflexivity.
Defined.
